(** * purify: tag-driven struct validation

    A shallow embedding of [purify.go] (the engine: [RegisterValidator],
    [ValidateStruct], [parseRule]) and of the built-in validators
    ([Min], [Max], [Required], [Email] and their [init]), together with
    the parts of Go's [strings], [strconv] and [reflect] packages the
    engine calls.

    Go strings are byte sequences; they are modelled by [string], whose
    characters are the bytes.  Go's [int] is the 64-bit signed integer.
    [gform.go], an earlier copy of the engine in package [main], is
    embedded in the module [gform]. *)

From stdpp Require Import base strings list gmap pretty.
From Stdlib Require Import ZArith Lia Ascii String.

Open Scope string_scope.
Open Scope Z_scope.

(** ** Package [strings] *)

Module strings.

(** [len(s)], as the [int] Go returns. *)
Definition len (s : string) : Z := Z.of_nat (String.length s).

(** [strings.Index(s, sep)] for a one-byte [sep]: the offset of the
    first occurrence, or [-1]. *)
Fixpoint Index (s : string) (sep : ascii) : Z :=
  match s with
  | EmptyString => -1
  | String c s' =>
      if Ascii.eqb c sep then 0
      else let i := Index s' sep in
           if i =? -1 then -1 else i + 1
  end.

(** The slice expressions [s[:n]] and [s[n:]]. The engine only slices
    at offsets that [Index] returned, which are in range
    (see [Index_range]); out of range Go would panic. *)
Fixpoint slice_to (s : string) (n : nat) {struct n} : string :=
  match n, s with
  | S n', String c s' => String c (slice_to s' n')
  | _, _ => EmptyString
  end.

Fixpoint slice_from (s : string) (n : nat) {struct n} : string :=
  match n, s with
  | S n', String _ s' => slice_from s' n'
  | _, _ => s
  end.

(** [strings.TrimRight(s, cutset)] for a one-byte [cutset]: every
    trailing occurrence of the byte is removed. *)
Fixpoint TrimRight (s : string) (cut : ascii) : string :=
  match s with
  | EmptyString => EmptyString
  | String c s' =>
      match TrimRight s' cut with
      | EmptyString => if Ascii.eqb c cut then EmptyString else String c EmptyString
      | r => String c r
      end
  end.

(** [strings.Split(s, sep)] for a one-byte [sep]. The empty string
    splits into one empty piece. *)
Fixpoint Split (s : string) (sep : ascii) : list string :=
  match s with
  | EmptyString => [EmptyString]
  | String c s' =>
      if Ascii.eqb c sep then EmptyString :: Split s' sep
      else match Split s' sep with
           | piece :: rest => String c piece :: rest
           | [] => [String c EmptyString]
           end
  end.

(** [n] copies of one byte. *)
Fixpoint Repeat (c : ascii) (n : nat) : string :=
  match n with
  | O => EmptyString
  | S n' => String c (Repeat c n')
  end.

(** Does the byte occur in the string? *)
Fixpoint ContainsByte (s : string) (c : ascii) : bool :=
  match s with
  | EmptyString => false
  | String a s' => Ascii.eqb a c || ContainsByte s' c
  end.

(** Does the string end with the byte? *)
Fixpoint HasSuffixByte (s : string) (c : ascii) : bool :=
  match s with
  | EmptyString => false
  | String a EmptyString => Ascii.eqb a c
  | String _ s' => HasSuffixByte s' c
  end.

End strings.

(** ** The rule grammar: [parseRule] *)

(** [parseRule] (purify.go): the name is what precedes the first opening
    parenthesis, the parameter what follows it, less every trailing
    closing parenthesis. *)
Definition parseRule (rule : string) : string * string :=
  let idx := strings.Index rule "(" in
  if idx =? -1 then (rule, "")
  else
    let ruleName := strings.slice_to rule (Z.to_nat idx) in
    let param := strings.TrimRight (strings.slice_from rule (Z.to_nat (idx + 1))) ")" in
    (ruleName, param).

(** The rules of a specification, as the inner loop of [ValidateStruct]
    reads them: split on the bar, each piece parsed. *)
Definition parseRules (gformTag : string) : list (string * string) :=
  parseRule <$> strings.Split gformTag "|".

(** ** Package [strconv]: [Atoi] *)

Module strconv.

(** The two errors a [*NumError] wraps. *)
Inductive NumError : Type := ErrSyntax | ErrRange.

#[global] Instance NumError_eq_dec : EqDecision NumError.
Proof. solve_decision. Defined.

Definition intSize : Z := 64.
Definition base : Z := 10.
Definition maxUint64 : Z := 2 ^ 64 - 1.

(** Arithmetic of [byte], [uint64] and [int64] wraps around. *)
Definition wrap_byte (z : Z) : Z := z mod 256.
Definition wrap_uint64 (z : Z) : Z := z mod 2 ^ 64.
Definition wrap_int64 (z : Z) : Z := (z + 2 ^ 63) mod 2 ^ 64 - 2 ^ 63.

Definition byte_of (c : ascii) : Z := Z.of_nat (nat_of_ascii c).

(** [lower(c)]: [c | ('x' - 'X')]. *)
Definition lower (c : Z) : Z := Z.lor c 32.

(** The digit loop of [ParseUint] in base 10 for 64 bits. It leaves
    at the first byte that is no digit with a syntax error, and at the
    first digit that overflows with a range error, whatever follows. *)
Fixpoint ParseUint_loop (s : string) (n : Z) : Z * option NumError :=
  match s with
  | EmptyString => (n, None)
  | String ch rest =>
      let c := byte_of ch in
      let digit :=
        if (48 <=? c) && (c <=? 57) then Some (c - 48)
        else if (97 <=? lower c) && (lower c <=? 122) then Some (lower c - 97 + 10)
        else None in
      match digit with
      | None => (0, Some ErrSyntax)
      | Some d =>
          if d >=? base then (0, Some ErrSyntax)
          else if n >=? maxUint64 / 10 + 1 then (maxUint64, Some ErrRange)
          else
            let n10 := wrap_uint64 (n * base) in
            let n1 := wrap_uint64 (n10 + d) in
            if (n1 <? n10) || (n1 >? maxUint64) then (maxUint64, Some ErrRange)
            else ParseUint_loop rest n1
      end
  end.

(** [ParseUint(s, 10, 0)]. *)
Definition ParseUint (s : string) : Z * option NumError :=
  match s with
  | EmptyString => (0, Some ErrSyntax)
  | _ => ParseUint_loop s 0
  end.

(** [ParseInt(s, 10, 0)]: a value out of range is replaced by the
    nearest bound and reported as a range error. *)
Definition ParseInt (s : string) : Z * option NumError :=
  match s with
  | EmptyString => (0, Some ErrSyntax)
  | String c0 rest =>
      let neg := Ascii.eqb c0 "-" in
      let digits := if Ascii.eqb c0 "+" || Ascii.eqb c0 "-" then rest else s in
      let '(un, err) := ParseUint digits in
      match err with
      | Some ErrSyntax => (0, Some ErrSyntax)
      | _ =>
          let cutoff := 2 ^ (intSize - 1) in
          if negb neg && (un >=? cutoff) then (cutoff - 1, Some ErrRange)
          else if neg && (un >? cutoff) then (- cutoff, Some ErrRange)
          else
            let n := wrap_int64 un in
            (if neg then wrap_int64 (- n) else n, None)
      end
  end.

(** The loop of the fast path of [Atoi]. *)
Fixpoint Atoi_loop (s : string) (n : Z) : Z * option NumError :=
  match s with
  | EmptyString => (n, None)
  | String ch rest =>
      let c := wrap_byte (byte_of ch - 48) in
      if c >? 9 then (0, Some ErrSyntax)
      else Atoi_loop rest (wrap_int64 (n * 10 + c))
  end.

(** [strconv.Atoi]: a fast path for strings of fewer than 19 bytes,
    otherwise [ParseInt]. *)
Definition Atoi (s : string) : Z * option NumError :=
  let sLen := strings.len s in
  if (0 <? sLen) && (sLen <? 19) then
    match s with
    | EmptyString => (0, Some ErrSyntax)
    | String c0 rest =>
        let signed := Ascii.eqb c0 "-" || Ascii.eqb c0 "+" in
        let digits := if signed then rest else s in
        if signed && (strings.len digits <? 1) then (0, Some ErrSyntax)
        else
          match Atoi_loop digits 0 with
          | (n, None) => (if Ascii.eqb c0 "-" then wrap_int64 (- n) else n, None)
          | failure => failure
          end
    end
  else ParseInt s.

End strconv.

(** ** Package [regexp], as far as [Email] needs it *)

Module regexp.

(** Regular expressions over bytes. Every class of the one pattern the
    repository compiles is ASCII only, so matching bytes and matching
    runes agree. *)
Inductive Regexp : Type :=
| NoMatch
| EmptyMatch
| CharClass (member : ascii -> bool)
| Concat (r1 r2 : Regexp)
| Alternate (r1 r2 : Regexp)
| Star (r : Regexp).

Definition Plus (r : Regexp) : Regexp := Concat r (Star r).
Definition AtLeast2 (r : Regexp) : Regexp := Concat r (Concat r (Star r)).
Definition Literal (c : ascii) : Regexp := CharClass (Ascii.eqb c).

Fixpoint nullable (r : Regexp) : bool :=
  match r with
  | NoMatch => false
  | EmptyMatch => true
  | CharClass _ => false
  | Concat r1 r2 => nullable r1 && nullable r2
  | Alternate r1 r2 => nullable r1 || nullable r2
  | Star _ => true
  end.

Fixpoint derive (c : ascii) (r : Regexp) : Regexp :=
  match r with
  | NoMatch => NoMatch
  | EmptyMatch => NoMatch
  | CharClass member => if member c then EmptyMatch else NoMatch
  | Concat r1 r2 =>
      if nullable r1
      then Alternate (Concat (derive c r1) r2) (derive c r2)
      else Concat (derive c r1) r2
  | Alternate r1 r2 => Alternate (derive c r1) (derive c r2)
  | Star r1 => Concat (derive c r1) (Star r1)
  end.

(** Matching a pattern anchored at both ends ([^...$]). *)
Fixpoint MatchAnchored (r : Regexp) (s : string) : bool :=
  match s with
  | EmptyString => nullable r
  | String c s' => MatchAnchored (derive c r) s'
  end.

Definition between (lo hi : ascii) (c : ascii) : bool :=
  (nat_of_ascii lo <=? nat_of_ascii c)%nat && (nat_of_ascii c <=? nat_of_ascii hi)%nat.

Definition alnum (c : ascii) : bool :=
  between "a" "z" c || between "A" "Z" c || between "0" "9" c.

Definition alpha (c : ascii) : bool := between "a" "z" c || between "A" "Z" c.

Definition one_of (set : string) (c : ascii) : bool := strings.ContainsByte set c.

End regexp.

(** ** Calls that may panic *)

(** A Go call either returns or panics. *)
Inductive Exec (A : Type) : Type :=
| Panics (reason : string)
| Returns (a : A).
Arguments Panics {A} reason.
Arguments Returns {A} a.

#[global] Instance Exec_ret : MRet Exec := fun A a => Returns a.

#[global] Instance Exec_fmap : FMap Exec := fun A B f m =>
  match m with
  | Panics reason => Panics reason
  | Returns a => Returns (f a)
  end.

#[global] Instance Exec_bind : MBind Exec := fun A B k m =>
  match m with
  | Panics reason => Panics reason
  | Returns a => k a
  end.

(** ** Package [reflect], as far as the engine uses it *)

Module reflect.

Inductive Kind : Type :=
| Invalid | Bool | Int | Uint | Float | Complex | Array | Chan | Func
| Interface | Map | Pointer | Slice | String | Struct | UnsafePointer.

#[global] Instance Kind_eq_dec : EqDecision Kind.
Proof. solve_decision. Defined.

(** The kinds a value can have other than pointer and struct. *)
Inductive PlainKind : Type :=
| PBool | PInt | PUint | PFloat | PComplex | PArray | PChan | PFunc
| PInterface | PMap | PSlice | PString | PUnsafePointer.

Definition Kind_of_plain (k : PlainKind) : Kind :=
  match k with
  | PBool => Bool | PInt => Int | PUint => Uint | PFloat => Float
  | PComplex => Complex | PArray => Array | PChan => Chan | PFunc => Func
  | PInterface => Interface | PMap => Map | PSlice => Slice
  | PString => String | PUnsafePointer => UnsafePointer
  end.

(** A struct tag, already cut into its [key:"value"] pairs, in the
    order they are written. *)
Definition StructTag : Type := list (string * string).

(** [StructTag.Lookup]: the value of the first pair with that key. *)
Fixpoint Lookup (tag : StructTag) (key : string) : option string :=
  match tag with
  | [] => None
  | (k, v) :: rest => if String.eqb k key then Some v else Lookup rest key
  end.

(** [StructTag.Get]: the empty string when the key is absent. *)
Definition Get (tag : StructTag) (key : string) : string :=
  match Lookup tag key with
  | Some v => v
  | None => ""
  end.

(** What a field holds, as far as its [%v] rendering needs: a string,
    an integer or a boolean of a type without [String] or [Error]
    method, which [%v] renders as itself, in decimal, and as [true] or
    [false]; or anything else, with the text [%v] renders it as (for a
    type with such a method, what the method returns). *)
Inductive Held : Type :=
| HString (s : string)
| HInt (n : Z)
| HBool (b : bool)
| HOther (text : string).

(** [reflect.StructField] with the value found in that field. The
    package path is empty exactly for an exported field. *)
Record StructField : Type := {
  Name : string;
  PkgPath : string;
  Tag : StructTag;
  Holds : Held
}.

Definition IsExported (f : StructField) : bool := String.eqb (PkgPath f) "".

(** The dynamic value handed to [reflect.ValueOf]. [VZero] is the
    zero [Value], what [ValueOf(nil)] and [Elem] of a nil pointer
    give. *)
Inductive Value : Type :=
| VZero
| VPlain (k : PlainKind)
| VPtr (elem : Value)
| VStruct (fields : list StructField).

Definition KindOf (v : Value) : Kind :=
  match v with
  | VZero => Invalid
  | VPlain k => Kind_of_plain k
  | VPtr _ => Pointer
  | VStruct _ => Struct
  end.

(** [v.Elem()], called by the engine on pointers only. *)
Definition Elem (v : Value) : Value :=
  match v with
  | VPtr elem => elem
  | _ => VZero
  end.

(** [v.Field(i).Interface()]: reading a field that is not exported
    panics. *)
Definition FieldInterface (f : StructField) : Exec Held :=
  if IsExported f then Returns (Holds f)
  else Panics "reflect.Value.Interface: cannot return value obtained from unexported field or method".

End reflect.

(** [fmt.Sprintf("%v", x)]. *)
Definition Sprintf_v (x : reflect.Held) : string :=
  match x with
  | reflect.HString s => s
  | reflect.HInt n => pretty n
  | reflect.HBool b => if b then "true" else "false"
  | reflect.HOther text => text
  end.

(** ** The engine (purify.go) *)

(** A validator is taken as one that returns a message for every value
    and parameter; a nil validator or one that panics has no
    counterpart here. *)
Abbreviation ValidatorFunc := (string -> string -> string).

(** The package variable [validators]. *)
Abbreviation Registry := (gmap string ValidatorFunc).

Record ValidateError : Type := {
  Errors : gmap string (list string);
  Message : string
}.

(** [RegisterValidator]: [validators[name] = fn]. *)
Definition RegisterValidator (name : string) (fn : ValidatorFunc)
    (validators : Registry) : Registry :=
  <[name := fn]> validators.

(** One invocation of a registered validator. *)
Record Call : Type := {
  callee : string;
  onValue : string;
  withParam : string
}.

(** The variables the two loops of [ValidateStruct] update, and the log
    of the validator invocations made so far. *)
Record LoopState : Type := {
  validationErrors : gmap string (list string);
  firstErrorMessage : string;
  invoked : list Call
}.

Definition initialState : LoopState :=
  {| validationErrors := ∅; firstErrorMessage := ""; invoked := [] |}.

(** The body of the loop over the rules of one field. *)
Definition dispatch (validators : Registry) (fieldName fieldValueStr : string)
    (st : LoopState) (rule : string) : LoopState :=
  let '(ruleName, param) := parseRule rule in
  match validators !! ruleName with
  | Some validator =>
      let errMsg := validator fieldValueStr param in
      let log := (invoked st ++ [{| callee := ruleName; onValue := fieldValueStr;
                                   withParam := param |}])%list in
      if negb (String.eqb errMsg "") then
        {| validationErrors :=
             <[fieldName := (default [] (validationErrors st !! fieldName) ++ [errMsg])%list]>
               (validationErrors st);
           firstErrorMessage :=
             if String.eqb (firstErrorMessage st) "" then errMsg else firstErrorMessage st;
           invoked := log |}
      else
        {| validationErrors := validationErrors st;
           firstErrorMessage := firstErrorMessage st;
           invoked := log |}
  | None => st
  end.

(** The loop over the rules of one field. *)
Definition dispatchAll (validators : Registry) (fieldName fieldValueStr : string)
    (rules : list string) (st : LoopState) : LoopState :=
  fold_left (dispatch validators fieldName fieldValueStr) rules st.

(** The key under which the errors of a field are filed. *)
Definition displayName (f : reflect.StructField) : string :=
  let jsonTag := reflect.Get (reflect.Tag f) "json" in
  if String.eqb jsonTag "" || String.eqb jsonTag "-" then reflect.Name f else jsonTag.

(** The body of the loop over the fields. *)
Definition validateField (validators : Registry) (st : LoopState)
    (f : reflect.StructField) : Exec LoopState :=
  let fieldName := displayName f in
  let gformTag := reflect.Get (reflect.Tag f) "purify" in
  if String.eqb gformTag "" then Returns st
  else
    let rules := strings.Split gformTag "|" in
    held ← reflect.FieldInterface f;
    Returns (dispatchAll validators fieldName (Sprintf_v held) rules st).

(** The loop over the fields. *)
Fixpoint validateFields (validators : Registry) (fields : list reflect.StructField)
    (st : LoopState) : Exec LoopState :=
  match fields with
  | [] => Returns st
  | f :: rest =>
      st' ← validateField validators st f;
      validateFields validators rest st'
  end.

(** What a call of [ValidateStruct] returns ([None] is Go's [nil]),
    with the log of the validators it invoked. *)
Record Outcome : Type := {
  report : option ValidateError;
  calls : list Call
}.

Definition expectedAStruct : ValidateError :=
  {| Errors := {[ "" := ["expected a struct"] ]};
     Message := "expected a struct" |}.

(** [v.NumField()] and [v.Field(i)]: the fields of a struct, in the
    order of declaration. The engine asks for them on structs only; on
    any other kind Go would panic. *)
Definition fieldsOf (v : reflect.Value) : list reflect.StructField :=
  match v with
  | reflect.VStruct fields => fields
  | _ => []
  end.

(** [ValidateStruct]. *)
Definition ValidateStruct (validators : Registry) (s : reflect.Value) : Exec Outcome :=
  let v := s in
  let v := if decide (reflect.KindOf v = reflect.Pointer) then reflect.Elem v else v in
  if decide (reflect.KindOf v <> reflect.Struct) then
    Returns {| report := Some expectedAStruct; calls := [] |}
  else
    st ← validateFields validators (fieldsOf v) initialState;
    if 0 <? Z.of_nat (size (validationErrors st)) then
      Returns {| report := Some {| Errors := validationErrors st;
                                   Message := firstErrorMessage st |};
                 calls := invoked st |}
    else Returns {| report := None; calls := invoked st |}.

(** ** The built-in validators *)

Definition Min : ValidatorFunc := fun fieldValue param =>
  let maxLength := fst (strconv.Atoi param) in
  if strings.len fieldValue <? maxLength then "min length is " ++ param else "".

Definition Max : ValidatorFunc := fun fieldValue param =>
  let maxLength := fst (strconv.Atoi param) in
  if strings.len fieldValue >? maxLength then "max length is " ++ param else "".

Definition Required : ValidatorFunc := fun fieldValue param =>
  if String.eqb fieldValue "" then "required" else "".

(** The pattern [^[a-zA-Z0-9._%+-]+@[a-zA-Z0-9.-]+\.[a-zA-Z]{2,}$]. *)
Definition emailRegex : regexp.Regexp :=
  let local := regexp.CharClass (fun c => regexp.alnum c || regexp.one_of "._%+-" c) in
  let domain := regexp.CharClass (fun c => regexp.alnum c || regexp.one_of ".-" c) in
  regexp.Concat (regexp.Plus local)
    (regexp.Concat (regexp.Literal "@")
      (regexp.Concat (regexp.Plus domain)
        (regexp.Concat (regexp.Literal ".")
          (regexp.AtLeast2 (regexp.CharClass regexp.alpha))))).

Definition Email : ValidatorFunc := fun fieldValue param =>
  let matched := regexp.MatchAnchored emailRegex fieldValue in
  if negb matched then "invalid email" else "".

(** [init]: the registry once the package is loaded. *)
Definition init (validators : Registry) : Registry :=
  RegisterValidator "email" Email
    (RegisterValidator "required" Required
      (RegisterValidator "max" Max
        (RegisterValidator "min" Min validators))).

Definition builtins : Registry := init ∅.

(** ** The process: the package variable threaded through the calls *)

(** A call made by the program reads or updates [validators]. *)
Definition Process (A : Type) : Type := Registry -> A * Registry.


Definition callValidateStruct (s : reflect.Value) : Process (Exec Outcome) :=
  fun validators => (ValidateStruct validators s, validators).

Definition andThen {A B : Type} (first : Process A) (next : A -> Process B) : Process B :=
  fun validators => let '(a, validators') := first validators in next a validators'.

Definition result {A : Type} (a : A) : Process A := fun validators => (a, validators).

(** Two calls on the same value, one after the other. *)
Definition validateTwice (s : reflect.Value) : Process (Exec Outcome * Exec Outcome) :=
  andThen (callValidateStruct s) (fun first =>
  andThen (callValidateStruct s) (fun second =>
  result (first, second))).


(** ** Records of the test and of the README *)

Definition exportedField (name : string) (tag : reflect.StructTag) (held : reflect.Held)
    : reflect.StructField :=
  {| reflect.Name := name; reflect.PkgPath := ""; reflect.Tag := tag; reflect.Holds := held |}.

Definition unexportedField (name : string) (tag : reflect.StructTag) (held : reflect.Held)
    : reflect.StructField :=
  {| reflect.Name := name; reflect.PkgPath := "main"; reflect.Tag := tag;
     reflect.Holds := held |}.

(** [TestStruct] of the test. *)
Definition TestStruct (Name : string) : list reflect.StructField :=
  [exportedField "Name" [("json", "name"); ("purify", "email")] (reflect.HString Name)].

(** [User] of the README. *)
Definition User (Email Username : string) (Age : Z) : list reflect.StructField :=
  [exportedField "Email" [("json", "email"); ("purify", "required|email")]
     (reflect.HString Email);
   exportedField "Username" [("json", "username"); ("purify", "required|min(3)|max(20)")]
     (reflect.HString Username);
   exportedField "Age" [("json", "age"); ("purify", "min(18)|max(99)")] (reflect.HInt Age)].

(** A record without any rule. *)
Definition Plain (Title : string) (hidden : Z) : list reflect.StructField :=
  [exportedField "Title" [("json", "title")] (reflect.HString Title);
   unexportedField "hidden" [] (reflect.HInt hidden)].

(** ** The report, in the words of the specification *)

(** The rule specification of a field and its rendered value. *)
Definition ruleSpec (f : reflect.StructField) : string :=
  reflect.Get (reflect.Tag f) "purify".

Definition renderedValue (f : reflect.StructField) : string :=
  Sprintf_v (reflect.Holds f).

(** The serialization-tag name when the tag is present, not empty and
    not the omit placeholder, the declared name otherwise. *)
Definition reportKey (f : reflect.StructField) : string :=
  match reflect.Lookup (reflect.Tag f) "json" with
  | Some tagName =>
      if decide (tagName <> "" /\ tagName <> "-") then tagName else reflect.Name f
  | None => reflect.Name f
  end.

(** The name a json tag gives: what precedes its first comma, the rest
    being options. *)
Definition jsonName (tagValue : string) : string :=
  let idx := strings.Index tagValue "," in
  if idx =? -1 then tagValue else strings.slice_to tagValue (Z.to_nat idx).

(** The key as the name of the json tag: that name when the tag is
    present, not empty and not the omit placeholder, the declared name
    otherwise. *)
Definition keyByTagName (f : reflect.StructField) : string :=
  match reflect.Lookup (reflect.Tag f) "json" with
  | Some tagValue =>
      if decide (tagValue <> "" /\ tagValue <> "-") then jsonName tagValue
      else reflect.Name f
  | None => reflect.Name f
  end.

(** The message of one rule on a value: that of the validator registered
    under the name of the rule, nothing when there is none. *)
Definition ruleMessage (validators : Registry) (value rule : string) : string :=
  match validators !! (parseRule rule).1 with
  | Some validator => validator value (parseRule rule).2
  | None => ""
  end.

(** The messages of one field, in the order of its rules. *)
Definition fieldMessages (validators : Registry) (f : reflect.StructField) : list string :=
  if decide (ruleSpec f = "") then []
  else filter (fun msg => msg <> "")
         (ruleMessage validators (renderedValue f) <$> strings.Split (ruleSpec f) "|").

(** The failures of a record: key and message, fields in the order of
    declaration, the rules of a field from left to right. *)
Definition failuresOf (validators : Registry) (f : reflect.StructField)
    : list (string * string) :=
  (fun msg => (reportKey f, msg)) <$> fieldMessages validators f.

Definition failures (validators : Registry) (fields : list reflect.StructField)
    : list (string * string) :=
  fields ≫= failuresOf validators.

(** The messages filed under one key. *)
Definition messagesUnder (key : string) (found : list (string * string)) : list string :=
  (filter (fun e => e.1 = key) found).*2.

(** The first message of all, empty when there is none. *)
Definition firstMessage (found : list (string * string)) : string :=
  hd "" found.*2.

(** A field the engine can read: it has no rules, or it is exported. *)
Definition readable (f : reflect.StructField) : Prop :=
  ruleSpec f = "" \/ reflect.IsExported f = true.

(** A value is struct-shaped when it is a struct or a pointer to one. *)
Definition structShaped (v : reflect.Value) : bool :=
  match v with
  | reflect.VStruct _ => true
  | reflect.VPtr (reflect.VStruct _) => true
  | _ => false
  end.

(** A decimal numeral: an optional sign, then one decimal digit or
    more. *)
Definition isDigit (c : ascii) : bool :=
  (48 <=? strconv.byte_of c) && (strconv.byte_of c <=? 57).

Fixpoint allDigits (s : string) : bool :=
  match s with
  | EmptyString => true
  | String c rest => isDigit c && allDigits rest
  end.

Definition isNumeral (s : string) : bool :=
  match s with
  | EmptyString => false
  | String c0 rest =>
      let digits := if Ascii.eqb c0 "-" || Ascii.eqb c0 "+" then rest else s in
      negb (String.eqb digits "") && allDigits digits
  end.

(** A parameter is unparsable when [Atoi] reports an error for it. *)
Definition unparsable (param : string) : Prop :=
  (strconv.Atoi param).2 <> None.

(** Two registries agree when they hold, under the same names,
    validators that return the same message on every value and
    parameter. *)
Definition agree (validators1 validators2 : Registry) : Prop :=
  forall name,
    match validators1 !! name, validators2 !! name with
    | Some f, Some g => forall value param, f value param = g value param
    | None, None => True
    | _, _ => False
    end.

(** The loop variables record the failures found so far. *)
Definition records (found : list (string * string)) (st : LoopState) : Prop :=
  (forall key, validationErrors st !! key =
     match messagesUnder key found with
     | [] => None
     | msgs => Some msgs
     end)
  /\ firstErrorMessage st = firstMessage found
  /\ Forall (fun e => e.2 <> "") found.

(** ** Further notions the properties are stated with *)

(** How often a byte occurs in a string. *)
Fixpoint countByte (s : string) (c : ascii) : nat :=
  match s with
  | EmptyString => O
  | String a s' => (if Ascii.eqb a c then 1 else 0)%nat + countByte s' c
  end.

(** Every byte of the string is in the class. *)
Fixpoint allIn (member : ascii -> bool) (s : string) : bool :=
  match s with
  | EmptyString => true
  | String c s' => member c && allIn member s'
  end.

(** The names of the rules of a field, none when it has no rule
    specification. *)
Definition ruleNames (f : reflect.StructField) : list string :=
  if decide (ruleSpec f = "") then []
  else (parseRule <$> strings.Split (ruleSpec f) "|").*1.

(** The validator calls one field gives rise to: one for each of its
    rules whose name is registered, from left to right. *)
Definition callsOfRule (validators : Registry) (value rule : string) : list Call :=
  match validators !! (parseRule rule).1 with
  | Some _ => [{| callee := (parseRule rule).1; onValue := value;
                  withParam := (parseRule rule).2 |}]
  | None => []
  end.

Definition callsOf (validators : Registry) (f : reflect.StructField) : list Call :=
  if decide (ruleSpec f = "") then []
  else strings.Split (ruleSpec f) "|" ≫= callsOfRule validators (renderedValue f).


(** The number a run of decimal digits writes, after the digits already
    read. *)
Fixpoint digitsValue (s : string) (acc : Z) : Z :=
  match s with
  | EmptyString => acc
  | String c rest => digitsValue rest (acc * 10 + (strconv.byte_of c - 48))
  end.

(** The number a decimal numeral writes. *)
Definition numeralValue (s : string) : Z :=
  match s with
  | EmptyString => 0
  | String c0 rest =>
      if Ascii.eqb c0 "-" then - digitsValue rest 0
      else if Ascii.eqb c0 "+" then digitsValue rest 0
      else digitsValue s 0
  end.

(** The strings a regular expression matches from end to end. *)
Inductive Matches : regexp.Regexp -> string -> Prop :=
| Matches_empty : Matches regexp.EmptyMatch ""
| Matches_class member c :
    member c = true -> Matches (regexp.CharClass member) (String c "")
| Matches_concat r1 r2 s1 s2 :
    Matches r1 s1 -> Matches r2 s2 -> Matches (regexp.Concat r1 r2) (s1 ++ s2)
| Matches_left r1 r2 s : Matches r1 s -> Matches (regexp.Alternate r1 r2) s
| Matches_right r1 r2 s : Matches r2 s -> Matches (regexp.Alternate r1 r2) s
| Matches_star_none r : Matches (regexp.Star r) ""
| Matches_star_more r s1 s2 :
    Matches r s1 -> Matches (regexp.Star r) s2 -> Matches (regexp.Star r) (s1 ++ s2).

(** The classes of the pattern of [Email]. *)
Definition emailLocalClass (c : ascii) : bool :=
  regexp.alnum c || regexp.one_of "._%+-" c.

Definition emailDomainClass (c : ascii) : bool :=
  regexp.alnum c || regexp.one_of ".-" c.

(** The names [init] registers. *)
Definition builtinNames : list string := ["min"; "max"; "required"; "email"].


(** ** The earlier engine (gform.go) *)

Module gform.

(** [field.String()]. Unlike [Interface] it reads unexported fields
    too, and it calls no method of the type: for a field of kind string
    it is the string itself, and for any other kind the name of the type
    between ["<"] and [" Value>"]. For a field that does not hold a
    string of a type without methods, that text is given by
    [otherwise]. *)
Definition ValueString (otherwise : string) (held : reflect.Held) : string :=
  match held with
  | reflect.HString s => s
  | _ => otherwise
  end.

(** The rule parsing written in the loop: the segment is split on the
    opening parenthesis; the first piece is the name, the second, when
    there is one, the parameter once its closing parentheses are
    removed. *)
Definition splitRule (rule : string) : string * string :=
  let parts := strings.Split rule "(" in
  let ruleName := hd "" parts in
  let param :=
    match parts with
    | _ :: second :: _ => strings.TrimRight second ")"
    | _ => ""
    end in
  (ruleName, param).

(** The body of the loop over the rules of one field. *)
Definition dispatch (validators : Registry) (fieldName fieldString : string)
    (st : LoopState) (rule : string) : LoopState :=
  let '(ruleName, param) := splitRule rule in
  match validators !! ruleName with
  | Some validator =>
      let errMsg := validator fieldString param in
      let log := (invoked st ++ [{| callee := ruleName; onValue := fieldString;
                                   withParam := param |}])%list in
      if negb (String.eqb errMsg "") then
        {| validationErrors :=
             <[fieldName := (default [] (validationErrors st !! fieldName) ++ [errMsg])%list]>
               (validationErrors st);
           firstErrorMessage :=
             if String.eqb (firstErrorMessage st) "" then errMsg else firstErrorMessage st;
           invoked := log |}
      else
        {| validationErrors := validationErrors st;
           firstErrorMessage := firstErrorMessage st;
           invoked := log |}
  | None => st
  end.

(** The body of the loop over the fields; [otherString] gives what
    [String] returns for a field that holds no plain string. *)
Definition validateField (otherString : reflect.StructField -> string)
    (validators : Registry) (st : LoopState) (f : reflect.StructField) : LoopState :=
  let jsonTag := reflect.Get (reflect.Tag f) "json" in
  let jsonTag := if String.eqb jsonTag "" then reflect.Name f else jsonTag in
  let gformTag := reflect.Get (reflect.Tag f) "gform" in
  if negb (String.eqb gformTag "") then
    let fieldName := jsonTag in
    let rules := strings.Split gformTag "|" in
    fold_left
      (dispatch validators fieldName (ValueString (otherString f) (reflect.Holds f)))
      rules st
  else st.

(** [validateStruct]: [v.NumField()] panics unless the value is itself
    a struct. *)
Definition validateStruct (otherString : reflect.StructField -> string)
    (validators : Registry) (s : reflect.Value) : Exec Outcome :=
  if decide (reflect.KindOf s = reflect.Struct) then
    let st := fold_left (validateField otherString validators) (fieldsOf s) initialState in
    if 0 <? Z.of_nat (size (validationErrors st)) then
      Returns {| report := Some {| Errors := validationErrors st;
                                   Message := firstErrorMessage st |};
                 calls := invoked st |}
    else Returns {| report := None; calls := invoked st |}
  else Panics "reflect: call of reflect.Value.NumField on a Value that is not a struct".

End gform.

(** A field on which the two engines do the same: it carries one rule
    specification under both tag keys, its json tag is not the omit
    placeholder, [String] and [%v] give the same text for what it holds
    (as they do for a string of a type without methods), it is exported
    unless it has no rules, and none of its rules has two opening
    parentheses. *)
Definition sameForBoth (otherString : reflect.StructField -> string)
    (f : reflect.StructField) : Prop :=
  reflect.Get (reflect.Tag f) "gform" = reflect.Get (reflect.Tag f) "purify"
  /\ reflect.Get (reflect.Tag f) "json" <> "-"
  /\ gform.ValueString (otherString f) (reflect.Holds f) = renderedValue f
  /\ readable f
  /\ Forall (fun rule => (countByte rule "(" <= 1)%nat)
       (strings.Split (ruleSpec f) "|").

(** The field with another package path: exported when the path is
    empty, unexported otherwise. *)
Definition withPkgPath (path : string) (f : reflect.StructField) : reflect.StructField :=
  {| reflect.Name := reflect.Name f; reflect.PkgPath := path;
     reflect.Tag := reflect.Tag f; reflect.Holds := reflect.Holds f |}.

(** The first field of a record that carries rules is unexported. *)
Definition firstRulesHidden (fields : list reflect.StructField) : Prop :=
  exists before f after,
    fields = (before ++ f :: after)%list
    /\ Forall (fun g => ruleSpec g = "") before
    /\ ruleSpec f <> "" /\ reflect.IsExported f = false.

(** A record of the earlier engine, which reads the tag key [gform]. *)
Definition Form (Name : string) : list reflect.StructField :=
  [exportedField "Name"
     [("json", "name"); ("gform", "required|min(3)"); ("purify", "required|min(3)")]
     (reflect.HString Name)].

(** * Properties *)

(** ** Strings *)

Section string_facts.

Import strings.

Lemma append_cons a s t : String a s ++ t = String a (s ++ t).
Proof. reflexivity. Qed.

Lemma append_empty_l t : "" ++ t = t.
Proof. reflexivity. Qed.

Lemma Index_lower_bound s c : -1 <= Index s c.
Proof.
  induction s as [|a s IH]; simpl; [lia|].
  destruct (Ascii.eqb a c); [lia|].
  destruct (Z.eqb_spec (Index s c) (-1)); lia.
Qed.

(** An offset returned by [Index] is inside the string, so the slices
    taken by [parseRule] are in range. *)
Lemma Index_range s c : Index s c <> -1 -> 0 <= Index s c < len s.
Proof.
  unfold len. induction s as [|a s IH]; simpl; [lia|].
  destruct (Ascii.eqb a c); [lia|].
  destruct (Z.eqb_spec (Index s c) (-1)); [lia|].
  intros _. specialize (IH ltac:(assumption)). lia.
Qed.

Lemma Index_absent s c : ContainsByte s c = false -> Index s c = -1.
Proof.
  induction s as [|a s IH]; simpl; [done|].
  intros [Ha Hs]%orb_false_iff. rewrite Ha, (IH Hs). done.
Qed.

Lemma Index_present s c : ContainsByte s c = true -> Index s c <> -1.
Proof.
  induction s as [|a s IH]; simpl; [done|].
  destruct (Ascii.eqb a c); simpl; [lia|].
  intros Hs. specialize (IH Hs).
  destruct (Z.eqb_spec (Index s c) (-1)); [done|].
  pose proof (Index_lower_bound s c). lia.
Qed.

Lemma Index_first s c rest :
  ContainsByte s c = false -> Index (s ++ String c rest) c = len s.
Proof.
  unfold len. induction s as [|a s IH].
  - rewrite append_empty_l. simpl. by rewrite Ascii.eqb_refl.
  - rewrite append_cons. simpl.
    intros [Ha Hs]%orb_false_iff. rewrite Ha, (IH Hs).
    destruct (Z.eqb_spec (Z.of_nat (String.length s)) (-1)); lia.
Qed.

Lemma slice_to_app s t : slice_to (s ++ t) (String.length s) = s.
Proof.
  induction s as [|a s IH].
  - rewrite append_empty_l. by destruct t.
  - rewrite append_cons. simpl. by rewrite IH.
Qed.

Lemma slice_from_app_succ s c t :
  slice_from (s ++ String c t) (S (String.length s)) = t.
Proof.
  induction s as [|a s IH].
  - reflexivity.
  - rewrite append_cons. exact IH.
Qed.

Lemma TrimRight_empty_iff s c :
  TrimRight s c = "" <-> exists k, s = Repeat c k.
Proof.
  induction s as [|a s IH]; simpl.
  - split; [by exists O | done].
  - destruct (TrimRight s c) eqn:E.
    + destruct (Ascii.eqb_spec a c) as [->|Hne].
      * split; [intros _|done].
        destruct (proj1 IH eq_refl) as [k ->]. by exists (S k).
      * split; [done|]. intros [[|k] Hk]; simpl in Hk; [done|]. congruence.
    + split; [done|]. intros [[|k] Hk]; simpl in Hk; [done|].
      injection Hk as -> Hs.
      assert (String a0 s0 = "") as Hbad by (apply IH; eauto). done.
Qed.

(** What [TrimRight] removes is a run of the cut byte. *)
Lemma TrimRight_run s c : exists k, s = TrimRight s c ++ Repeat c k.
Proof.
  induction s as [|a s [k IH]]; simpl.
  - by exists O.
  - destruct (TrimRight s c) eqn:E.
    + rewrite append_empty_l in IH.
      destruct (Ascii.eqb_spec a c) as [->|Hne].
      * exists (S k). rewrite append_empty_l. simpl. by rewrite <- IH.
      * exists k. rewrite !append_cons, append_empty_l. by rewrite <- IH.
    + exists k. rewrite append_cons. by rewrite <- IH.
Qed.

(** What [TrimRight] leaves does not end with the cut byte. *)
Lemma TrimRight_no_suffix s c : HasSuffixByte (TrimRight s c) c = false.
Proof.
  induction s as [|a s IH]; simpl; [done|].
  destruct (TrimRight s c) eqn:E.
  - destruct (Ascii.eqb_spec a c) as [->|Hne]; simpl; [done|].
    by apply Ascii.eqb_neq.
  - simpl in *. exact IH.
Qed.

Lemma Split_nonempty s c : Split s c <> [].
Proof.
  induction s as [|a s IH]; simpl; [done|].
  destruct (Ascii.eqb a c); [done|]. by destruct (Split s c).
Qed.

End string_facts.

(** ** The rule grammar *)

Lemma parseRule_bare rule :
  strings.ContainsByte rule "(" = false -> parseRule rule = (rule, "").
Proof. intros H. unfold parseRule. by rewrite (Index_absent _ _ H). Qed.

Lemma parseRule_with_param name rest :
  strings.ContainsByte name "(" = false ->
  parseRule (name ++ String "(" rest) = (name, strings.TrimRight rest ")").
Proof.
  intros H. unfold parseRule. rewrite (Index_first _ _ rest H).
  unfold strings.len.
  destruct (Z.eqb_spec (Z.of_nat (String.length name)) (-1)); [lia|].
  rewrite Nat2Z.id.
  replace (Z.to_nat (Z.of_nat (String.length name) + 1)) with (S (String.length name)) by lia.
  by rewrite slice_to_app, slice_from_app_succ.
Qed.

(** C2. A segment without an opening parenthesis is the rule name, with
    the empty parameter. A segment [name(rest], where [name] has no
    opening parenthesis, has the name [name] and for parameter [rest]
    without the run of closing parentheses that ends it, whether or not
    [rest] closes the parenthesis. And ["min(3)|max(20)"] is parsed into
    [("min","3")] then [("max","20")]. *)
Theorem parseRule_grammar (name rest : string) :
  strings.ContainsByte name "(" = false ->
  parseRule name = (name, "")
  /\ (exists param k,
        parseRule (name ++ "(" ++ rest) = (name, param)
        /\ rest = param ++ strings.Repeat ")" k
        /\ strings.HasSuffixByte param ")" = false)
  /\ parseRules "min(3)|max(20)" = [("min", "3"); ("max", "20")].
Proof.
  intros Hname. split; [by apply parseRule_bare|]. split; [|reflexivity].
  destruct (TrimRight_run rest ")") as [k Hk].
  exists (strings.TrimRight rest ")"), k. split; [|split].
  - by apply parseRule_with_param.
  - exact Hk.
  - apply TrimRight_no_suffix.
Qed.

Lemma parseRule_grammar_witness :
  parseRule "required" = ("required", "")
  /\ (exists param k,
        parseRule ("required" ++ "(" ++ "a)b))") = ("required", param)
        /\ "a)b))" = param ++ strings.Repeat ")" k
        /\ strings.HasSuffixByte param ")" = false)
  /\ parseRules "min(3)|max(20)" = [("min", "3"); ("max", "20")].
Proof. apply (parseRule_grammar "required" "a)b))"). reflexivity. Defined.

(** ** The dispatch loop *)

Section dispatch_facts.

Context (validators : Registry).

Lemma messagesUnder_app key found more :
  messagesUnder key (found ++ more)%list
  = (messagesUnder key found ++ messagesUnder key more)%list.
Proof. unfold messagesUnder. by rewrite filter_app, fmap_app. Qed.

Lemma messagesUnder_one key name msg :
  messagesUnder key [(name, msg)] = if decide (name = key) then [msg] else [].
Proof.
  unfold messagesUnder. rewrite filter_cons, filter_nil. simpl.
  by repeat case_decide.
Qed.

Lemma records_initial : records [] initialState.
Proof. split; [|split]; [intros key; apply lookup_empty | done | constructor]. Qed.

(** Filing one more message. *)
Lemma records_file found st name msg log :
  records found st -> msg <> "" ->
  records (found ++ [(name, msg)])%list
    {| validationErrors :=
         <[name := (default [] (validationErrors st !! name) ++ [msg])%list]>
           (validationErrors st);
       firstErrorMessage :=
         if String.eqb (firstErrorMessage st) "" then msg else firstErrorMessage st;
       invoked := log |}.
Proof.
  intros (Herr & Hfirst & Hne) Hmsg. split; [|split]; simpl.
  - intros key. rewrite messagesUnder_app, messagesUnder_one.
    destruct (decide (name = key)) as [->|Hkey].
    + rewrite lookup_insert_eq, Herr.
      destruct (messagesUnder key found); done.
    + rewrite lookup_insert_ne by done. rewrite Herr, app_nil_r. done.
  - rewrite Hfirst. unfold firstMessage. rewrite fmap_app.
    destruct found as [|[k m] found]; simpl; [done|].
    apply Forall_cons_1 in Hne as [Hm _]; simpl in Hm.
    by apply String.eqb_neq in Hm as ->.
  - apply Forall_app. split; [done|]. by constructor.
Qed.

Lemma records_log found st log :
  records found st ->
  records found {| validationErrors := validationErrors st;
                   firstErrorMessage := firstErrorMessage st;
                   invoked := log |}.
Proof. by intros (? & ? & ?). Qed.

(** One turn of the loop over the rules files the message of the rule,
    if it has one. *)
Lemma records_dispatch found st name value rule :
  records found st ->
  records
    (found ++ ((fun msg => (name, msg))
                 <$> filter (fun msg => msg <> "") [ruleMessage validators value rule]))%list
    (dispatch validators name value st rule).
Proof.
  intros Hst. unfold dispatch, ruleMessage.
  destruct (parseRule rule) as [ruleName param]; simpl.
  destruct (validators !! ruleName) as [validator|].
  - rewrite filter_cons, filter_nil.
    destruct (String.eqb_spec (validator value param) "") as [Hmsg|Hmsg]; simpl.
    + rewrite decide_False by (by intros ?). simpl. rewrite app_nil_r.
      by apply records_log.
    + rewrite decide_True by done. simpl. by apply records_file.
  - rewrite filter_cons, filter_nil, decide_False by (by intros ?).
    simpl. by rewrite app_nil_r.
Qed.

Lemma records_dispatchAll rules found st name value :
  records found st ->
  records
    (found ++ ((fun msg => (name, msg))
                 <$> filter (fun msg => msg <> "") (ruleMessage validators value <$> rules)))%list
    (dispatchAll validators name value rules st).
Proof.
  unfold dispatchAll. revert found st.
  induction rules as [|rule rules IH]; intros found st Hst; simpl.
  - by rewrite app_nil_r.
  - apply (records_dispatch _ _ name value rule), IH in Hst.
    rewrite <- app_assoc, <- fmap_app, <- filter_app in Hst. exact Hst.
Qed.

End dispatch_facts.

(** ** The loop over the fields *)

Section field_facts.

Context (validators : Registry).

(** The key computed by the engine is the one the specification
    words. *)
Lemma displayName_reportKey f : displayName f = reportKey f.
Proof.
  unfold displayName, reportKey, reflect.Get.
  destruct (reflect.Lookup (reflect.Tag f) "json") as [tagName|]; [|done].
  case_decide as Htag.
  - destruct Htag as [Hempty Homit].
    apply String.eqb_neq in Hempty, Homit. by rewrite Hempty, Homit.
  - destruct (String.eqb_spec tagName "") as [|Hempty]; [done|].
    destruct (String.eqb_spec tagName "-") as [|Homit]; [done|].
    by destruct Htag.
Qed.

Lemma validateField_no_rules st f :
  ruleSpec f = "" -> validateField validators st f = Returns st.
Proof. unfold validateField, ruleSpec. by intros ->. Qed.

Lemma validateField_exported st f :
  ruleSpec f <> "" -> reflect.IsExported f = true ->
  validateField validators st f
  = Returns (dispatchAll validators (reportKey f) (renderedValue f)
               (strings.Split (ruleSpec f) "|") st).
Proof.
  unfold validateField, ruleSpec, reflect.FieldInterface. intros Hspec ->.
  apply String.eqb_neq in Hspec as ->. by rewrite displayName_reportKey.
Qed.

Lemma validateField_unexported st f :
  ruleSpec f <> "" -> reflect.IsExported f = false ->
  exists reason, validateField validators st f = Panics reason.
Proof.
  unfold validateField, ruleSpec, reflect.FieldInterface. intros Hspec ->.
  apply String.eqb_neq in Hspec as ->. by eexists.
Qed.

Lemma validateField_records found st st' f :
  validateField validators st f = Returns st' ->
  records found st ->
  records (found ++ failuresOf validators f)%list st'.
Proof.
  intros Hrun Hst. unfold failuresOf, fieldMessages.
  destruct (decide (ruleSpec f = "")) as [Hspec|Hspec].
  - rewrite validateField_no_rules in Hrun by done.
    injection Hrun as <-. simpl. by rewrite app_nil_r.
  - destruct (reflect.IsExported f) eqn:Hexp.
    + rewrite validateField_exported in Hrun by done.
      injection Hrun as <-. by apply records_dispatchAll.
    + destruct (validateField_unexported st f Hspec Hexp) as [reason Hpanic].
      congruence.
Qed.

Lemma validateFields_records fields found st st' :
  validateFields validators fields st = Returns st' ->
  records found st ->
  records (found ++ failures validators fields)%list st'.
Proof.
  unfold failures. revert found st.
  induction fields as [|f fields IH]; intros found st Hrun Hst; simpl in *.
  - injection Hrun as <-. by rewrite app_nil_r.
  - destruct (validateField validators st f) as [reason|st1] eqn:Hf; [done|].
    simpl in Hrun. rewrite app_assoc.
    apply (IH _ st1); [done|]. by apply validateField_records with st.
Qed.

Lemma validateFields_returns fields st :
  Forall readable fields ->
  exists st', validateFields validators fields st = Returns st'.
Proof.
  revert st. induction fields as [|f fields IH]; intros st Hfields; simpl.
  - by eexists.
  - apply Forall_cons_1 in Hfields as [Hf Hfields].
    destruct (decide (ruleSpec f = "")) as [Hspec|Hspec].
    + rewrite validateField_no_rules by done. simpl. by apply IH.
    + destruct Hf as [?|Hexp]; [done|].
      rewrite validateField_exported by done. simpl. by apply IH.
Qed.

Lemma validateFields_no_rules fields st :
  Forall (fun f => ruleSpec f = "") fields ->
  validateFields validators fields st = Returns st.
Proof.
  induction 1 as [|f fields Hf _ IH]; simpl; [done|].
  by rewrite validateField_no_rules.
Qed.

(** The messages a record has under a key are those of its fields
    with that key. *)
Lemma messagesUnder_failures key fields msg :
  msg ∈ messagesUnder key (failures validators fields)
  <-> exists f, f ∈ fields /\ reportKey f = key /\ msg ∈ fieldMessages validators f.
Proof.
  unfold messagesUnder, failures, failuresOf. rewrite list_elem_of_fmap. split.
  - intros ([k m] & -> & [Hkey Hin]%list_elem_of_filter). simpl in *.
    apply list_elem_of_bind in Hin as (f & Hin & Hf).
    apply list_elem_of_fmap in Hin as (m' & [= -> ->] & Hin).
    by exists f.
  - intros (f & Hf & Hkey & Hin). exists (key, msg). split; [done|].
    apply list_elem_of_filter. split; [done|].
    apply list_elem_of_bind. exists f. split; [|done].
    apply list_elem_of_fmap. exists msg. by rewrite Hkey.
Qed.

(** The error map is empty exactly when nothing failed. *)
Lemma records_size found st :
  records found st ->
  (0 <? Z.of_nat (size (validationErrors st))) = false <-> found = [].
Proof.
  intros (Herr & _ & _). rewrite Z.ltb_ge. split.
  - intros Hsize.
    assert (validationErrors st = ∅) as Hempty by (apply map_size_empty_iff; lia).
    destruct found as [|[key msg] found]; [done|].
    specialize (Herr key). rewrite Hempty, lookup_empty in Herr.
    unfold messagesUnder in Herr. rewrite filter_cons in Herr.
    rewrite decide_True in Herr by done. done.
  - intros ->.
    assert (validationErrors st = ∅) as ->; [|by rewrite map_size_empty].
    apply map_eq. intros key. by rewrite Herr, lookup_empty.
Qed.

(** The report of a call on a struct that returns. *)
Lemma ValidateStruct_returned fields o :
  ValidateStruct validators (reflect.VStruct fields) = Returns o ->
  match report o with
  | Some r =>
      failures validators fields <> []
      /\ (forall key, Errors r !! key =
            match messagesUnder key (failures validators fields) with
            | [] => None
            | msgs => Some msgs
            end)
      /\ Message r = firstMessage (failures validators fields)
  | None => failures validators fields = []
  end.
Proof.
  unfold ValidateStruct. simpl.
  destruct (validateFields validators fields initialState) as [reason|st] eqn:Hrun;
    [done|]. simpl.
  apply (validateFields_records _ []) in Hrun; [|apply records_initial].
  simpl in Hrun. pose proof (records_size _ _ Hrun) as Hsize.
  destruct (0 <? Z.of_nat (size (validationErrors st))) eqn:Hpos;
    intros [= <-]; simpl.
  - destruct Hrun as (Herr & Hfirst & _). split; [|done].
    intros Hnone. apply Hsize in Hnone. done.
  - by apply Hsize.
Qed.

Lemma ValidateStruct_returns fields :
  Forall readable fields ->
  exists o, ValidateStruct validators (reflect.VStruct fields) = Returns o.
Proof.
  intros Hfields. unfold ValidateStruct. simpl.
  destruct (validateFields_returns fields initialState Hfields) as [st ->]. simpl.
  destruct (0 <? Z.of_nat (size (validationErrors st))); by eexists.
Qed.

End field_facts.

(** ** The report *)

(** C1. The messages the registered validators return for the rules of
    a field are filed under the key of that field in the order the rules
    are evaluated, and [Message] is the first message of all, fields
    taken in the order of declaration and the rules of a field from left
    to right. A record whose rule-bearing fields are exported is
    validated to the end; a report is returned exactly when some
    validator returned a message. *)
Theorem ValidateStruct_files_messages (validators : Registry)
    (fields : list reflect.StructField) :
  (Forall readable fields ->
   exists o, ValidateStruct validators (reflect.VStruct fields) = Returns o)
  /\ (forall o,
        ValidateStruct validators (reflect.VStruct fields) = Returns o ->
        match report o with
        | Some r =>
            failures validators fields <> []
            /\ (forall key, Errors r !! key =
                  match messagesUnder key (failures validators fields) with
                  | [] => None
                  | msgs => Some msgs
                  end)
            /\ Message r = firstMessage (failures validators fields)
        | None => failures validators fields = []
        end).
Proof.
  split.
  - apply ValidateStruct_returns.
  - apply ValidateStruct_returned.
Qed.

Lemma User_readable : Forall readable (User "not-an-email" "Al" 25).
Proof. repeat constructor; right; reflexivity. Defined.

Lemma ValidateStruct_files_messages_witness :
  exists o,
    ValidateStruct builtins (reflect.VStruct (User "not-an-email" "Al" 25)) = Returns o
    /\ match report o with
       | Some r =>
           failures builtins (User "not-an-email" "Al" 25) <> []
           /\ (forall key, Errors r !! key =
                 match messagesUnder key (failures builtins (User "not-an-email" "Al" 25)) with
                 | [] => None
                 | msgs => Some msgs
                 end)
           /\ Message r = firstMessage (failures builtins (User "not-an-email" "Al" 25))
       | None => failures builtins (User "not-an-email" "Al" 25) = []
       end.
Proof.
  destruct (ValidateStruct_files_messages builtins (User "not-an-email" "Al" 25))
    as [Hreturns Hreport].
  destruct (Hreturns User_readable) as [o Ho].
  exists o. split; [exact Ho | exact (Hreport o Ho)].
Defined.

(** What the failures of that record are. *)
Example User_failures :
  failures builtins (User "not-an-email" "Al" 25)
  = [("email", "invalid email"); ("username", "min length is 3"); ("age", "min length is 18")].
Proof. vm_compute. reflexivity. Qed.

(** The test of the repository: a well-formed address passes. *)
Example TestValidator :
  report <$> ValidateStruct builtins (reflect.VStruct (TestStruct "alexganbert@gmail.com"))
  = Returns None.
Proof. vm_compute. reflexivity. Qed.

(** C3. A value that is neither a struct nor a pointer to a struct makes
    [ValidateStruct] return, without panicking and without calling any
    validator, the report whose [Errors] maps the empty key to the one
    message ["expected a struct"] and whose [Message] is that message. *)
Theorem ValidateStruct_expects_struct (validators : Registry) (s : reflect.Value) :
  structShaped s = false ->
  ValidateStruct validators s
  = Returns {| report := Some {| Errors := {[ "" := ["expected a struct"] ]};
                                 Message := "expected a struct" |};
               calls := [] |}.
Proof.
  intros Hshape. unfold ValidateStruct.
  destruct s as [|k|elem|fields]; simpl in Hshape.
  - reflexivity.
  - destruct k; reflexivity.
  - destruct elem as [|k| |]; [reflexivity | destruct k; reflexivity | reflexivity | done].
  - done.
Qed.

Lemma ValidateStruct_expects_struct_witness :
  ValidateStruct builtins (reflect.VPlain reflect.PInt)
  = Returns {| report := Some {| Errors := {[ "" := ["expected a struct"] ]};
                                 Message := "expected a struct" |};
               calls := [] |}.
Proof. apply (ValidateStruct_expects_struct builtins (reflect.VPlain reflect.PInt)). reflexivity. Defined.

(** Nil, a nil pointer and a pointer to a pointer to a struct are not
    struct-shaped either. *)
Example not_struct_shaped :
  structShaped reflect.VZero = false
  /\ structShaped (reflect.VPtr reflect.VZero) = false
  /\ structShaped (reflect.VPtr (reflect.VPtr (reflect.VStruct (TestStruct "x")))) = false.
Proof. done. Qed.

(** C4. When every field of a record has an empty rule specification
    (the tag is empty or absent), [ValidateStruct] calls no validator
    and returns nil. *)
Theorem ValidateStruct_without_rules (validators : Registry)
    (fields : list reflect.StructField) :
  Forall (fun f => ruleSpec f = "") fields ->
  ValidateStruct validators (reflect.VStruct fields)
  = Returns {| report := None; calls := [] |}.
Proof.
  intros Hfields. unfold ValidateStruct. simpl.
  by rewrite validateFields_no_rules.
Qed.

Lemma ValidateStruct_without_rules_witness :
  ValidateStruct builtins (reflect.VStruct (Plain "purify" 7))
  = Returns {| report := None; calls := [] |}.
Proof.
  apply (ValidateStruct_without_rules builtins (Plain "purify" 7)).
  repeat constructor.
Defined.

(** C10. A pointer to a struct is dereferenced first: the call returns
    what the call on the struct itself returns. If moreover no field has
    an empty name, that is never the report of a value that is not a
    struct. *)
Theorem ValidateStruct_pointer (validators : Registry)
    (fields : list reflect.StructField) :
  ValidateStruct validators (reflect.VPtr (reflect.VStruct fields))
  = ValidateStruct validators (reflect.VStruct fields)
  /\ (Forall (fun f => reflect.Name f <> "") fields ->
      forall o, ValidateStruct validators (reflect.VPtr (reflect.VStruct fields)) = Returns o ->
                report o <> Some expectedAStruct).
Proof.
  split; [reflexivity|].
  intros Hnames o Hrun.
  change (ValidateStruct validators (reflect.VStruct fields) = Returns o) in Hrun.
  apply ValidateStruct_returned in Hrun.
  intros Hreport. rewrite Hreport in Hrun.
  destruct Hrun as (_ & Herr & _). specialize (Herr "").
  assert (messagesUnder "" (failures validators fields) = []) as Hnone.
  { apply elem_of_nil_inv. intros msg (f & Hf & Hkey & _)%messagesUnder_failures.
    rewrite Forall_forall in Hnames. specialize (Hnames f Hf).
    unfold reportKey in Hkey.
    destruct (reflect.Lookup (reflect.Tag f) "json"); [|done].
    case_decide as Htag; [by destruct Htag | done]. }
  rewrite Hnone in Herr. simpl in Herr.
  by rewrite lookup_singleton_eq in Herr.
Qed.

Lemma ValidateStruct_pointer_witness :
  ValidateStruct builtins (reflect.VPtr (reflect.VStruct (User "" "Al" 25)))
  = ValidateStruct builtins (reflect.VStruct (User "" "Al" 25))
  /\ exists o, ValidateStruct builtins (reflect.VPtr (reflect.VStruct (User "" "Al" 25))) = Returns o
               /\ report o <> Some expectedAStruct.
Proof.
  destruct (ValidateStruct_pointer builtins (User "" "Al" 25)) as [Hsame Hreport].
  split; [exact Hsame|].
  eexists. split; [reflexivity|].
  apply Hreport; [repeat constructor; done | reflexivity].
Defined.





(** The two keys of that field, and where its message is. *)
Example omitempty_key :
  let f := exportedField "Email"
             [("json", "email,omitempty"); ("purify", "required")]
             (reflect.HString "") in
  keyByTagName f = "email"
  /\ reportKey f = "email,omitempty"
  /\ (fun o => map_to_list <$> (Errors <$> report o))
       <$> ValidateStruct builtins (reflect.VStruct [f])
     = Returns (Some [("email,omitempty", ["required"])]).
Proof. vm_compute. done. Qed.

(** The key of a field, by the shape of its json tag. *)
Example reportKey_cases :
  reportKey (exportedField "Name" [("json", "name")] (reflect.HString "")) = "name"
  /\ reportKey (exportedField "Name" [("json", "-")] (reflect.HString "")) = "Name"
  /\ reportKey (exportedField "Name" [("json", "")] (reflect.HString "")) = "Name"
  /\ reportKey (exportedField "Name" [] (reflect.HString "")) = "Name".
Proof. done. Qed.

(** ** Rules without a validator *)

(** C5. A rule whose name is not in the registry is skipped: the turn of
    the rule loop for it leaves the error map, the first message and the
    log of calls as they were, so that the loop runs as if the rule were
    not written, and the rule contributes no message. The turn cannot
    panic. *)
Theorem unknown_rule_skipped (validators : Registry) (fieldName value rule : string) :
  validators !! (parseRule rule).1 = None ->
  (forall st, dispatch validators fieldName value st rule = st)
  /\ (forall before after st,
        dispatchAll validators fieldName value (before ++ rule :: after)%list st
        = dispatchAll validators fieldName value (before ++ after)%list st)
  /\ ruleMessage validators value rule = "".
Proof.
  intros Hunknown.
  assert (forall st, dispatch validators fieldName value st rule = st) as Hskip.
  { intros st. unfold dispatch. destruct (parseRule rule) as [ruleName param].
    simpl in *. by rewrite Hunknown. }
  split; [exact Hskip|]. split.
  - intros before after st. unfold dispatchAll.
    rewrite !fold_left_app. simpl. by rewrite Hskip.
  - unfold ruleMessage. by rewrite Hunknown.
Qed.

Lemma unknown_rule_skipped_witness :
  (forall st, dispatch builtins "name" "Al" st "uuid(4)" = st)
  /\ (forall before after st,
        dispatchAll builtins "name" "Al" (before ++ "uuid(4)" :: after)%list st
        = dispatchAll builtins "name" "Al" (before ++ after)%list st)
  /\ ruleMessage builtins "Al" "uuid(4)" = "".
Proof. apply (unknown_rule_skipped builtins "name" "Al" "uuid(4)"). reflexivity. Defined.

(** A record all of whose rules are unknown is valid. *)
Example unknown_rules_only :
  ValidateStruct builtins
    (reflect.VStruct [exportedField "Name" [("purify", "uuid(4)|alpha")] (reflect.HString "")])
  = Returns {| report := None; calls := [] |}.
Proof. vm_compute. reflexivity. Qed.

(** ** The registry *)



(** ** Determinism *)

Section agreement.

Context (validators1 validators2 : Registry) (Hagree : agree validators1 validators2).

Lemma dispatch_agree fieldName value st rule :
  dispatch validators1 fieldName value st rule
  = dispatch validators2 fieldName value st rule.
Proof using Hagree.
  unfold dispatch. destruct (parseRule rule) as [ruleName param].
  specialize (Hagree ruleName).
  destruct (validators1 !! ruleName) as [f|], (validators2 !! ruleName) as [g|];
    try done.
  by rewrite Hagree.
Qed.

Lemma dispatchAll_agree fieldName value rules st :
  dispatchAll validators1 fieldName value rules st
  = dispatchAll validators2 fieldName value rules st.
Proof using Hagree.
  unfold dispatchAll. revert st.
  induction rules as [|rule rules IH]; intros st; simpl; [done|].
  by rewrite dispatch_agree, IH.
Qed.

Lemma validateFields_agree fields st :
  validateFields validators1 fields st = validateFields validators2 fields st.
Proof using Hagree.
  revert st. induction fields as [|f fields IH]; intros st; simpl; [done|].
  unfold validateField.
  destruct (String.eqb (reflect.Get (reflect.Tag f) "purify") ""); simpl; [apply IH|].
  destruct (reflect.FieldInterface f); simpl; [done|].
  by rewrite dispatchAll_agree, IH.
Qed.

Lemma ValidateStruct_agree s :
  ValidateStruct validators1 s = ValidateStruct validators2 s.
Proof using Hagree.
  unfold ValidateStruct.
  destruct (decide (reflect.KindOf _ <> reflect.Struct)); [done|].
  by rewrite validateFields_agree.
Qed.

End agreement.

Lemma agree_refl (validators : Registry) : agree validators validators.
Proof. intros name. by destruct (validators !! name). Qed.

(** C9. Two calls of [ValidateStruct] on the same value, made one after
    the other, return the same thing: the same [Errors] and [Message],
    nil both times, or the same panic; the registry is left as it was.
    What is returned depends on the validators only through the
    messages they return. *)
Theorem ValidateStruct_deterministic (validators : Registry) (s : reflect.Value) :
  (validateTwice s validators).1.1 = (validateTwice s validators).1.2
  /\ (validateTwice s validators).2 = validators
  /\ (forall validators',
        agree validators validators' ->
        ValidateStruct validators' s = ValidateStruct validators s).
Proof.
  split; [reflexivity|]. split; [reflexivity|].
  intros validators' Hagree. symmetry. by apply ValidateStruct_agree.
Qed.

Lemma ValidateStruct_deterministic_witness :
  (validateTwice (reflect.VStruct (User "" "Al" 25)) builtins).1.1
  = (validateTwice (reflect.VStruct (User "" "Al" 25)) builtins).1.2
  /\ ValidateStruct (init ∅) (reflect.VStruct (User "" "Al" 25))
     = ValidateStruct builtins (reflect.VStruct (User "" "Al" 25)).
Proof.
  destruct (ValidateStruct_deterministic builtins (reflect.VStruct (User "" "Al" 25)))
    as (Hsame & _ & Hagree).
  split; [exact Hsame | apply Hagree, agree_refl].
Defined.

(** ** The built-in validators *)

Section Atoi_facts.

Import strconv.

Lemma ParseUint_loop_syntax s n :
  (ParseUint_loop s n).2 = Some ErrSyntax -> (ParseUint_loop s n).1 = 0.
Proof.
  revert n. induction s as [|ch rest IH]; intros n; simpl; [done|].
  repeat (case_match; simpl; try done); apply IH.
Qed.

Lemma Atoi_loop_syntax s n :
  (Atoi_loop s n).2 = Some ErrSyntax -> (Atoi_loop s n).1 = 0.
Proof.
  revert n. induction s as [|ch rest IH]; intros n; simpl; [done|].
  case_match; simpl; [done | apply IH].
Qed.

Lemma ParseInt_syntax s : (ParseInt s).2 = Some ErrSyntax -> (ParseInt s).1 = 0.
Proof.
  unfold ParseInt. destruct s as [|c0 rest]; [done|].
  destruct (ParseUint _) as [un [[]|]]; simpl; try done;
    repeat (case_match; simpl; try done).
Qed.

(** A syntax error comes with the value zero. *)
Lemma Atoi_syntax s : (Atoi s).2 = Some ErrSyntax -> (Atoi s).1 = 0.
Proof.
  unfold Atoi. case_match; [|apply ParseInt_syntax].
  destruct s as [|c0 rest]; [done|].
  case_match; [done|].
  match goal with |- context [Atoi_loop ?d 0] =>
    pose proof (Atoi_loop_syntax d 0) as Hloop;
    destruct (Atoi_loop d 0) as [n [[]|]]
  end; simpl in *; first [done | by intros; apply Hloop].
Qed.

Lemma Atoi_loop_no_range s n : (Atoi_loop s n).2 <> Some ErrRange.
Proof.
  revert n. induction s as [|ch rest IH]; intros n; simpl; [done|].
  case_match; simpl; [done | apply IH].
Qed.

Lemma ParseInt_range s :
  (ParseInt s).2 = Some ErrRange ->
  (ParseInt s).1 = 2 ^ 63 - 1 \/ (ParseInt s).1 = - 2 ^ 63.
Proof.
  unfold ParseInt. destruct s as [|c0 rest]; [by simpl|].
  destruct (ParseUint _) as [un [[]|]]; simpl; [done| |];
    repeat (case_match; simpl; try done); intros _; by (left + right).
Qed.

(** A range error comes with the nearest bound of [int]. *)
Lemma Atoi_range s :
  (Atoi s).2 = Some ErrRange -> (Atoi s).1 = 2 ^ 63 - 1 \/ (Atoi s).1 = - 2 ^ 63.
Proof.
  unfold Atoi. case_match; [|apply ParseInt_range].
  destruct s as [|c0 rest]; [by simpl|].
  case_match; [by simpl|].
  match goal with |- context [Atoi_loop ?d 0] =>
    pose proof (Atoi_loop_no_range d 0) as Hnever;
    destruct (Atoi_loop d 0) as [n [[]|]]
  end; simpl in *; done.
Qed.

Lemma wrap_byte_digit c : (wrap_byte (byte_of c - 48) >? 9) = negb (isDigit c).
Proof. by destruct c as [[] [] [] [] [] [] [] []]. Qed.

Lemma Atoi_loop_not_digits s n :
  allDigits s = false -> Atoi_loop s n = (0, Some ErrSyntax).
Proof.
  revert n. induction s as [|ch rest IH]; intros n; simpl; [done|].
  rewrite wrap_byte_digit. destruct (isDigit ch); simpl; [apply IH | done].
Qed.

(** A parameter of fewer than 19 bytes that is not a decimal numeral is
    a syntax error. *)
Lemma Atoi_short_not_numeral s :
  strings.len s < 19 -> isNumeral s = false -> Atoi s = (0, Some ErrSyntax).
Proof.
  intros Hshort Hnum. unfold Atoi.
  destruct s as [|c0 rest]; [reflexivity|].
  replace (0 <? strings.len (String c0 rest)) with true
    by (symmetry; apply Z.ltb_lt; unfold strings.len; simpl; lia).
  replace (strings.len (String c0 rest) <? 19) with true
    by (symmetry; by apply Z.ltb_lt).
  unfold isNumeral in Hnum. cbn [andb].
  destruct ((c0 =? "-")%char || (c0 =? "+")%char) eqn:Hsign; cbn [andb].
  - destruct rest as [|c1 rest]; [reflexivity|].
    replace (strings.len (String c1 rest) <? 1) with false
      by (symmetry; apply Z.ltb_ge; unfold strings.len; simpl; lia).
    by rewrite (Atoi_loop_not_digits _ 0 Hnum).
  - by rewrite (Atoi_loop_not_digits _ 0 Hnum).
Qed.

Lemma len_nonneg s : 0 <= strings.len s.
Proof. unfold strings.len. lia. Qed.

Lemma len_positive s : s <> "" -> 0 < strings.len s.
Proof. unfold strings.len. destruct s; [done|]. simpl. lia. Qed.

End Atoi_facts.

(** C7, as amended. When [Atoi] reports a syntax error for the
    parameter, [min] and [max] compare the length with zero: [min]
    accepts every value and [max] rejects every value that is not
    empty. *)
Theorem Min_Max_syntax_error (value param : string) :
  (strconv.Atoi param).2 = Some strconv.ErrSyntax ->
  (strconv.Atoi param).1 = 0
  /\ Min value param = ""
  /\ (value <> "" ->
      Max value param = "max length is " ++ param /\ Max value param <> "")
  /\ Max "" param = "".
Proof.
  intros Hzero%Atoi_syntax. split; [exact Hzero|].
  unfold Min, Max. rewrite Hzero. split; [|split].
  - pose proof (len_nonneg value).
    by destruct (Z.ltb_spec (strings.len value) 0); [lia|].
  - intros Hlen%len_positive.
    by destruct (Z.gtb_spec (strings.len value) 0); [|lia].
  - reflexivity.
Qed.

Lemma Min_Max_syntax_error_witness :
  (strconv.Atoi "three").1 = 0
  /\ Min "Al" "three" = ""
  /\ Max "Al" "three" = "max length is three"
  /\ Max "" "three" = "".
Proof.
  destruct (Min_Max_syntax_error "Al" "three") as (Hzero & Hmin & Hmax & Hempty);
    [reflexivity|].
  split; [exact Hzero|]. split; [exact Hmin|]. split; [|exact Hempty].
  apply Hmax. discriminate.
Defined.

(** C7, as stated, fails: [Atoi] reports an error for this parameter,
    twenty digits and a letter, yet returns the greatest [int]; [min]
    then rejects the value and [max] accepts it. *)
Lemma Min_Max_unparsable_counterexample :
  ~ (unparsable "99999999999999999999x" ->
     Min "abc" "99999999999999999999x" = ""
     /\ ("abc" <> "" -> Max "abc" "99999999999999999999x" <> "")).
Proof.
  intros Hclaim. destruct Hclaim as [Hmin _]; [by vm_compute|].
  vm_compute in Hmin. discriminate.
Qed.

(** What [Atoi] returns when it reports an error. *)
Example Atoi_errors :
  strconv.Atoi "99999999999999999999x" = (2 ^ 63 - 1, Some strconv.ErrRange)
  /\ strconv.Atoi "99999999999999999999" = (2 ^ 63 - 1, Some strconv.ErrRange)
  /\ strconv.Atoi "-99999999999999999999" = (- 2 ^ 63, Some strconv.ErrRange)
  /\ strconv.Atoi "0.01" = (0, Some strconv.ErrSyntax)
  /\ strconv.Atoi "" = (0, Some strconv.ErrSyntax)
  /\ strconv.Atoi "-" = (0, Some strconv.ErrSyntax).
Proof. vm_compute. done. Qed.

Example Atoi_values :
  strconv.Atoi "20" = (20, None)
  /\ strconv.Atoi "+3" = (3, None)
  /\ strconv.Atoi "-18" = (-18, None)
  /\ strconv.Atoi "9223372036854775807" = (2 ^ 63 - 1, None)
  /\ strconv.Atoi "-9223372036854775808" = (- 2 ^ 63, None).
Proof. vm_compute. done. Qed.

(** * Further properties *)

(** ** More on the rule grammar *)

Lemma ContainsByte_split s c :
  strings.ContainsByte s c = true ->
  exists before after,
    s = before ++ String c after /\ strings.ContainsByte before c = false.
Proof.
  induction s as [|a s IH]; simpl; [done|].
  destruct (Ascii.eqb_spec a c) as [->|Hne]; simpl.
  - intros _. by exists "", s.
  - intros (before & after & -> & Hbefore)%IH.
    exists (String a before), after. split; [done|]. simpl.
    apply Ascii.eqb_neq in Hne. by rewrite Hne.
Qed.

Lemma length_append s t :
  String.length (s ++ t) = (String.length s + String.length t)%nat.
Proof.
  induction s as [|a s IH]; [done|]. rewrite append_cons. simpl. by rewrite IH.
Qed.

Lemma TrimRight_Repeat c k : strings.TrimRight (strings.Repeat c k) c = "".
Proof. apply TrimRight_empty_iff. by exists k. Qed.

(** Closing parentheses written after a parameter that does not end
    with one are all removed. *)
Lemma TrimRight_after s c k :
  strings.HasSuffixByte s c = false ->
  strings.TrimRight (s ++ strings.Repeat c k) c = s.
Proof.
  induction s as [|a s IH]; intros Hsuffix.
  - rewrite append_empty_l. apply TrimRight_Repeat.
  - rewrite append_cons. simpl. destruct s as [|b s].
    + rewrite append_empty_l, TrimRight_Repeat. simpl in Hsuffix. by rewrite Hsuffix.
    + rewrite IH by done. done.
Qed.

Lemma TrimRight_shorter s c :
  (String.length (strings.TrimRight s c) <= String.length s)%nat.
Proof.
  destruct (TrimRight_run s c) as [k Hk]. rewrite Hk at 2.
  rewrite length_append. lia.
Qed.

(** X1. Writing a rule as a name without opening parenthesis, an
    opening parenthesis, a parameter that does not end with a closing
    parenthesis and any number of closing parentheses, then parsing it,
    gives the name and the parameter back. *)
Theorem parseRule_round_trip (name param : string) (k : nat) :
  strings.ContainsByte name "(" = false ->
  strings.HasSuffixByte param ")" = false ->
  parseRule (name ++ "(" ++ param ++ strings.Repeat ")" k) = (name, param).
Proof.
  intros Hname Hparam.
  change (name ++ "(" ++ param ++ strings.Repeat ")" k)
    with (name ++ String "(" (param ++ strings.Repeat ")" k)).
  rewrite parseRule_with_param by done. by rewrite TrimRight_after.
Qed.

Lemma parseRule_round_trip_witness :
  parseRule ("in" ++ "(" ++ "a)b" ++ strings.Repeat ")" 2) = ("in", "a)b").
Proof. apply (parseRule_round_trip "in" "a)b" 2); reflexivity. Defined.

(** X2. Whatever the segment, the rule name [parseRule] returns has no
    opening parenthesis and starts the segment, the parameter does not
    end with a closing parenthesis, and the two together are not longer
    than the segment. *)
Theorem parseRule_result_shape (rule : string) :
  strings.ContainsByte (parseRule rule).1 "(" = false
  /\ strings.HasSuffixByte (parseRule rule).2 ")" = false
  /\ (exists rest, rule = (parseRule rule).1 ++ rest)
  /\ strings.len (parseRule rule).1 + strings.len (parseRule rule).2 <= strings.len rule.
Proof.
  destruct (strings.ContainsByte rule "(") eqn:Hparen.
  - destruct (ContainsByte_split _ _ Hparen) as (name & rest & -> & Hname).
    rewrite parseRule_with_param by done. simpl.
    split; [done|]. split; [apply TrimRight_no_suffix|]. split; [by eexists|].
    unfold strings.len. rewrite length_append. simpl.
    pose proof (TrimRight_shorter rest ")"). lia.
  - rewrite parseRule_bare by done. simpl.
    split; [done|]. split; [done|]. split.
    + exists "". clear. induction rule as [|a rule IH]; [done|].
      rewrite append_cons. by rewrite <- IH.
    + unfold strings.len. simpl. lia.
Qed.

(** ** More on the engine *)

(** [ValidateStruct] by the shape of its argument. *)
Lemma ValidateStruct_by_shape validators s :
  ValidateStruct validators s
  = match s with
    | reflect.VStruct fields | reflect.VPtr (reflect.VStruct fields) =>
        ValidateStruct validators (reflect.VStruct fields)
    | _ => Returns {| report := Some expectedAStruct; calls := [] |}
    end.
Proof.
  destruct s as [|k|elem|fields]; [reflexivity | by destruct k | | reflexivity].
  destruct elem as [|k| |]; [reflexivity | by destruct k | reflexivity | reflexivity].
Qed.

Lemma fieldMessages_nonempty validators f :
  Forall (fun msg => msg <> "") (fieldMessages validators f).
Proof.
  unfold fieldMessages. case_decide; [constructor|].
  apply Forall_forall. by intros msg [? _]%list_elem_of_filter.
Qed.

Lemma failures_nonempty validators fields :
  Forall (fun e => e.2 <> "") (failures validators fields).
Proof.
  apply Forall_forall. intros [key msg] (f & Hin & _)%list_elem_of_bind.
  apply list_elem_of_fmap in Hin as (m & [= -> ->] & Hm). simpl.
  pose proof (fieldMessages_nonempty validators f) as Hne.
  rewrite Forall_forall in Hne. by apply Hne.
Qed.

(** X3. Every report [ValidateStruct] returns, for a struct or for
    anything else, is well formed: [Errors] is not empty, no list in it
    is empty, no message in it is empty, and [Message] is not empty and
    is the first message of one of the lists. *)
Theorem report_well_formed (validators : Registry) (s : reflect.Value)
    (o : Outcome) (r : ValidateError) :
  ValidateStruct validators s = Returns o ->
  report o = Some r ->
  Errors r <> ∅
  /\ Message r <> ""
  /\ (forall key msgs, Errors r !! key = Some msgs ->
        msgs <> [] /\ Forall (fun msg => msg <> "") msgs)
  /\ (exists key rest, Errors r !! key = Some (Message r :: rest)).
Proof.
  intros Hrun Hreport. rewrite ValidateStruct_by_shape in Hrun.
  assert (forall fields,
            ValidateStruct validators (reflect.VStruct fields) = Returns o ->
            Errors r <> ∅
            /\ Message r <> ""
            /\ (forall key msgs, Errors r !! key = Some msgs ->
                  msgs <> [] /\ Forall (fun msg => msg <> "") msgs)
            /\ (exists key rest, Errors r !! key = Some (Message r :: rest)))
    as Hstruct.
  { intros fields Hfields. apply ValidateStruct_returned in Hfields.
    rewrite Hreport in Hfields. destruct Hfields as (Hsome & Herr & Hfirst).
    pose proof (failures_nonempty validators fields) as Hne.
    destruct (failures validators fields) as [|[key msg] found] eqn:Hfound; [done|].
    apply Forall_cons_1 in Hne as [Hmsg Hrest]. simpl in Hmsg.
    assert (Errors r !! key
            = Some (msg :: messagesUnder key found)) as Hkey.
    { rewrite Herr. unfold messagesUnder. rewrite filter_cons.
      by rewrite decide_True. }
    split; [|split; [|split]].
    - intros Hempty. by rewrite Hempty, lookup_empty in Hkey.
    - by rewrite Hfirst.
    - intros key' msgs Hmsgs. rewrite Herr in Hmsgs.
      destruct (messagesUnder key' ((key, msg) :: found)) as [|m ms] eqn:Hunder;
        [done|]. injection Hmsgs as <-. split; [done|].
      rewrite <- Hunder. unfold messagesUnder. apply Forall_fmap.
      apply Forall_forall. intros e [_ He]%list_elem_of_filter. simpl.
      assert (Forall (fun e => e.2 <> "") ((key, msg) :: found)) as Hall
        by by constructor.
      rewrite Forall_forall in Hall. by apply Hall.
    - exists key, (messagesUnder key found). by rewrite Hfirst. }
  destruct s as [| |elem|fields]; [| |destruct elem|]; try (by eapply Hstruct);
    injection Hrun as <-; simpl in Hreport; injection Hreport as <-; simpl;
    (split; [by intros ?%(f_equal (lookup ""))|]); (split; [done|]);
    (split; [|by exists "", []]);
    intros key msgs [<- <-]%lookup_singleton_Some; by repeat constructor.
Qed.

Lemma report_well_formed_witness :
  exists o r,
    ValidateStruct builtins (reflect.VStruct (User "not-an-email" "Al" 25)) = Returns o
    /\ report o = Some r
    /\ Errors r <> ∅
    /\ Message r <> ""
    /\ (forall key msgs, Errors r !! key = Some msgs ->
          msgs <> [] /\ Forall (fun msg => msg <> "") msgs)
    /\ (exists key rest, Errors r !! key = Some (Message r :: rest)).
Proof.
  eexists. eexists. split; [reflexivity|]. split; [reflexivity|].
  eapply (report_well_formed builtins (reflect.VStruct (User "not-an-email" "Al" 25)));
    reflexivity.
Defined.

(** A field the engine cannot read keeps the loop from returning,
    whatever the registry and the state. *)
Lemma validateFields_returned_readable validators fields st st' :
  validateFields validators fields st = Returns st' -> Forall readable fields.
Proof.
  revert st. induction fields as [|f fields IH]; intros st Hrun; simpl in *.
  - constructor.
  - destruct (validateField validators st f) as [reason|st1] eqn:Hf; [done|].
    simpl in Hrun. constructor; [|by eapply IH].
    destruct (decide (ruleSpec f = "")) as [Hspec|Hspec]; [by left|].
    destruct (reflect.IsExported f) eqn:Hexp; [by right|].
    destruct (validateField_unexported validators st f Hspec Hexp) as [reason Hpanic].
    congruence.
Qed.

Lemma ValidateStruct_returned_readable validators fields o :
  ValidateStruct validators (reflect.VStruct fields) = Returns o ->
  Forall readable fields.
Proof.
  unfold ValidateStruct. simpl.
  destruct (validateFields validators fields initialState) as [reason|st] eqn:Hrun;
    [done|]. intros _. by eapply validateFields_returned_readable.
Qed.

(** The fields before the first one with rules are passed over, and
    that one, when unexported, stops the loop before any validator is
    called. *)
Lemma validateFields_first_hidden validators before f after st :
  Forall (fun g => ruleSpec g = "") before ->
  ruleSpec f <> "" -> reflect.IsExported f = false ->
  validateFields validators (before ++ f :: after) st
  = Panics "reflect.Value.Interface: cannot return value obtained from unexported field or method".
Proof.
  intros Hbefore Hspec Hexp.
  induction Hbefore as [|g before Hg _ IH]; simpl.
  - unfold validateField, reflect.FieldInterface. fold (ruleSpec f).
    apply String.eqb_neq in Hspec as ->. by rewrite Hexp.
  - rewrite validateField_no_rules by done. simpl. exact IH.
Qed.

(** X4. A call of [ValidateStruct] on a struct, or on a pointer to one,
    that returns has met no unexported field that carries rules; and
    when the first field that carries rules is unexported the call
    panics where the field is read, before any validator is called,
    whatever the registry holds. *)
Theorem ValidateStruct_unexported_field (validators : Registry)
    (fields : list reflect.StructField) :
  (forall o, ValidateStruct validators (reflect.VStruct fields) = Returns o ->
             Forall readable fields)
  /\ (forall o, ValidateStruct validators (reflect.VPtr (reflect.VStruct fields)) = Returns o ->
                Forall readable fields)
  /\ (firstRulesHidden fields ->
      ValidateStruct validators (reflect.VStruct fields)
      = Panics "reflect.Value.Interface: cannot return value obtained from unexported field or method").
Proof.
  split; [|split].
  - apply ValidateStruct_returned_readable.
  - intros o. rewrite ValidateStruct_by_shape. apply ValidateStruct_returned_readable.
  - intros (before & f & after & -> & Hbefore & Hspec & Hexp).
    unfold ValidateStruct. simpl.
    by rewrite validateFields_first_hidden.
Qed.

Lemma ValidateStruct_unexported_field_witness :
  Forall readable (User "" "Al" 25)
  /\ ValidateStruct builtins
       (reflect.VStruct
          (Plain "purify" 7
           ++ [unexportedField "name" [("purify", "required")] (reflect.HString "")]))
     = Panics "reflect.Value.Interface: cannot return value obtained from unexported field or method".
Proof.
  split.
  - eapply (ValidateStruct_unexported_field builtins (User "" "Al" 25)). reflexivity.
  - apply (ValidateStruct_unexported_field builtins
             (Plain "purify" 7
              ++ [unexportedField "name" [("purify", "required")] (reflect.HString "")])).
    exists (Plain "purify" 7),
           (unexportedField "name" [("purify", "required")] (reflect.HString "")), [].
    split; [reflexivity|]. split; [by repeat constructor|].
    split; [discriminate | reflexivity].
Defined.

(** The log of calls, turn by turn. *)
Lemma invoked_dispatch validators name value st rule :
  invoked (dispatch validators name value st rule)
  = (invoked st ++ callsOfRule validators value rule)%list.
Proof.
  unfold dispatch, callsOfRule. destruct (parseRule rule) as [ruleName param]. simpl.
  destruct (validators !! ruleName) as [validator|]; [|by rewrite app_nil_r].
  by destruct (negb _).
Qed.

Lemma invoked_dispatchAll validators name value rules st :
  invoked (dispatchAll validators name value rules st)
  = (invoked st ++ (rules ≫= callsOfRule validators value))%list.
Proof.
  unfold dispatchAll. revert st.
  induction rules as [|rule rules IH]; intros st; simpl.
  - by rewrite app_nil_r.
  - rewrite IH, invoked_dispatch. by rewrite <- app_assoc.
Qed.

Lemma invoked_validateField validators st st' f :
  validateField validators st f = Returns st' ->
  invoked st' = (invoked st ++ callsOf validators f)%list.
Proof.
  intros Hrun. unfold callsOf.
  destruct (decide (ruleSpec f = "")) as [Hspec|Hspec].
  - rewrite validateField_no_rules in Hrun by done.
    injection Hrun as <-. by rewrite app_nil_r.
  - destruct (reflect.IsExported f) eqn:Hexp.
    + rewrite validateField_exported in Hrun by done.
      injection Hrun as <-. apply invoked_dispatchAll.
    + destruct (validateField_unexported validators st f Hspec Hexp) as [reason Hpanic].
      congruence.
Qed.

Lemma invoked_validateFields validators fields st st' :
  validateFields validators fields st = Returns st' ->
  invoked st' = (invoked st ++ (fields ≫= callsOf validators))%list.
Proof.
  revert st. induction fields as [|f fields IH]; intros st Hrun; simpl in *.
  - injection Hrun as <-. by rewrite app_nil_r.
  - destruct (validateField validators st f) as [reason|st1] eqn:Hf; [done|].
    simpl in Hrun. rewrite (IH _ Hrun), (invoked_validateField _ _ _ _ Hf).
    by rewrite <- app_assoc.
Qed.

(** X5. A call of [ValidateStruct] that returns has invoked, in the
    order of the fields and of their rules, the validator of every rule
    whose name is registered, on the rendered value of the field and
    the parameter of the rule: a rule that fails does not keep the
    later ones from running. *)
Theorem validators_called_for_every_rule (validators : Registry)
    (fields : list reflect.StructField) (o : Outcome) :
  ValidateStruct validators (reflect.VStruct fields) = Returns o ->
  calls o = fields ≫= callsOf validators.
Proof.
  unfold ValidateStruct. simpl.
  destruct (validateFields validators fields initialState) as [reason|st] eqn:Hrun;
    [done|]. simpl.
  apply invoked_validateFields in Hrun. simpl in Hrun.
  case_match; intros [= <-]; simpl; exact Hrun.
Qed.

Lemma validators_called_for_every_rule_witness :
  exists o,
    ValidateStruct builtins (reflect.VStruct (User "" "Al" 25)) = Returns o
    /\ calls o = User "" "Al" 25 ≫= callsOf builtins.
Proof.
  eexists. split; [reflexivity|].
  apply (validators_called_for_every_rule builtins (User "" "Al" 25)). reflexivity.
Defined.

(** The calls made for that record: both rules of the first field run
    although the first fails. *)
Example User_calls :
  User "" "Al" 25 ≫= callsOf builtins
  = [ {| callee := "required"; onValue := ""; withParam := "" |};
      {| callee := "email"; onValue := ""; withParam := "" |};
      {| callee := "required"; onValue := "Al"; withParam := "" |};
      {| callee := "min"; onValue := "Al"; withParam := "3" |};
      {| callee := "max"; onValue := "Al"; withParam := "20" |};
      {| callee := "min"; onValue := "25"; withParam := "18" |};
      {| callee := "max"; onValue := "25"; withParam := "99" |} ].
Proof. vm_compute. reflexivity. Qed.

(** X6. The fields without rule specification play no part: the call
    on a record is the call on the record without them. *)
Theorem fields_without_rules_ignored (validators : Registry)
    (fields : list reflect.StructField) :
  ValidateStruct validators (reflect.VStruct fields)
  = ValidateStruct validators
      (reflect.VStruct (filter (fun f => ruleSpec f <> "") fields)).
Proof.
  unfold ValidateStruct. simpl. f_equal.
  generalize initialState.
  induction fields as [|f fields IH]; intros st; [done|].
  rewrite filter_cons. destruct (decide (ruleSpec f = "")) as [Hspec|Hspec].
  - rewrite decide_False by (by intros ?). simpl.
    rewrite validateField_no_rules by done. simpl. apply IH.
  - rewrite decide_True by done. simpl.
    destruct (validateField validators st f); simpl; [done | apply IH].
Qed.

Lemma dispatch_unused validators name fn fieldName value st rule :
  (parseRule rule).1 <> name ->
  dispatch (RegisterValidator name fn validators) fieldName value st rule
  = dispatch validators fieldName value st rule.
Proof.
  intros Hname. unfold dispatch, RegisterValidator.
  destruct (parseRule rule) as [ruleName param]. simpl in *.
  by rewrite lookup_insert_ne.
Qed.

Lemma dispatchAll_unused validators name fn fieldName value rules st :
  name ∉ (parseRule <$> rules).*1 ->
  dispatchAll (RegisterValidator name fn validators) fieldName value rules st
  = dispatchAll validators fieldName value rules st.
Proof.
  unfold dispatchAll. revert st.
  induction rules as [|rule rules IH]; intros st Hname; simpl; [done|].
  rewrite !fmap_cons in Hname. apply not_elem_of_cons in Hname as [Hrule Hrules].
  rewrite dispatch_unused by done. by apply IH.
Qed.

(** X7. Registering a validator under a name that no rule of the record
    bears does not change what [ValidateStruct] returns for it. *)
Theorem RegisterValidator_unused_name (name : string) (fn : ValidatorFunc)
    (validators : Registry) (fields : list reflect.StructField) :
  Forall (fun f => name ∉ ruleNames f) fields ->
  ValidateStruct (RegisterValidator name fn validators) (reflect.VStruct fields)
  = ValidateStruct validators (reflect.VStruct fields).
Proof.
  intros Hunused. unfold ValidateStruct. simpl. f_equal.
  generalize initialState.
  induction Hunused as [|f fields Hf _ IH]; intros st; simpl; [done|].
  assert (validateField (RegisterValidator name fn validators) st f
          = validateField validators st f) as ->.
  { unfold ruleNames in Hf. destruct (decide (ruleSpec f = "")) as [Hspec|Hspec].
    - by rewrite !validateField_no_rules.
    - unfold validateField. destruct (reflect.FieldInterface f); simpl.
      + by destruct (String.eqb _ _).
      + destruct (String.eqb _ _); [done|]. by rewrite dispatchAll_unused. }
  destruct (validateField validators st f); simpl; [done | apply IH].
Qed.

Lemma RegisterValidator_unused_name_witness :
  ValidateStruct (RegisterValidator "password" Required builtins)
    (reflect.VStruct (User "" "Al" 25))
  = ValidateStruct builtins (reflect.VStruct (User "" "Al" 25)).
Proof.
  apply (RegisterValidator_unused_name "password" Required builtins (User "" "Al" 25)).
  repeat constructor; vm_compute; intros Hin;
    repeat (apply elem_of_cons in Hin as [Hin|Hin]; [discriminate|]);
    by apply elem_of_nil in Hin.
Defined.

(** ** More on the built-in validators *)

Section numeral_facts.

Import strconv.

Lemma wrap_int64_small z : - 2 ^ 63 <= z < 2 ^ 63 -> wrap_int64 z = z.
Proof.
  unfold wrap_int64. change (2 ^ 64) with 18446744073709551616.
  change (2 ^ 63) with 9223372036854775808. intros Hz.
  rewrite Z.mod_small by lia. lia.
Qed.

Lemma digit_value c :
  isDigit c = true ->
  wrap_byte (byte_of c - 48) = byte_of c - 48 /\ 0 <= byte_of c - 48 <= 9.
Proof.
  unfold isDigit, wrap_byte. intros [Hlo Hhi]%andb_true_iff.
  apply Z.leb_le in Hlo, Hhi. rewrite Z.mod_small by lia. lia.
Qed.

Lemma pow10_succ (k : nat) : 10 ^ Z.of_nat (S k) = 10 * 10 ^ Z.of_nat k.
Proof. rewrite Nat2Z.inj_succ. apply Z.pow_succ_r. lia. Qed.

(** Below nineteen digits the loop of [Atoi] does not wrap around. *)
Lemma Atoi_loop_digits s : forall (k : nat) acc,
  allDigits s = true ->
  0 <= acc < 10 ^ Z.of_nat k ->
  (k + String.length s <= 18)%nat ->
  Atoi_loop s acc = (digitsValue s acc, None)
  /\ 0 <= digitsValue s acc < 10 ^ Z.of_nat (k + String.length s).
Proof.
  induction s as [|c rest IH]; intros k acc Hdigits Hacc Hlen; simpl in *.
  - split; [done|]. by rewrite Nat.add_0_r.
  - apply andb_true_iff in Hdigits as [Hc Hrest].
    destruct (digit_value c Hc) as [Hwrap Hd]. rewrite Hwrap.
    destruct (Z.gtb_spec (byte_of c - 48) 9) as [|_]; [lia|].
    assert (0 <= acc * 10 + (byte_of c - 48) < 10 ^ Z.of_nat (S k)) as Hnext
      by (rewrite pow10_succ; lia).
    assert (10 ^ Z.of_nat (S k) <= 10 ^ 18) as Hbound
      by (apply Z.pow_le_mono_r; lia).
    rewrite wrap_int64_small
      by (change (2 ^ 63) with 9223372036854775808;
          change (10 ^ 18) with 1000000000000000000 in Hbound; lia).
    replace (k + S (String.length rest))%nat with (S k + String.length rest)%nat by lia.
    apply IH; [done | done | lia].
Qed.

Lemma Atoi_loop_run s :
  allDigits s = true -> (String.length s <= 18)%nat ->
  Atoi_loop s 0 = (digitsValue s 0, None) /\ 0 <= digitsValue s 0 < 10 ^ 18.
Proof.
  intros Hdigits Hlen.
  destruct (Atoi_loop_digits s 0 0 Hdigits) as [Hrun Hval]; [simpl; lia | lia |].
  split; [done|]. simpl in Hval.
  assert (10 ^ Z.of_nat (String.length s) <= 10 ^ 18)
    by (apply Z.pow_le_mono_r; lia).
  lia.
Qed.

(** [Atoi] reads a decimal numeral of fewer than nineteen bytes as the
    number it writes. *)
Lemma Atoi_numeral s :
  isNumeral s = true -> strings.len s < 19 ->
  Atoi s = (numeralValue s, None) /\ - 10 ^ 18 < numeralValue s < 10 ^ 18.
Proof.
  intros Hnum Hshort. unfold Atoi.
  destruct s as [|c0 rest]; [done|].
  replace (0 <? strings.len (String c0 rest)) with true
    by (symmetry; apply Z.ltb_lt; unfold strings.len; simpl; lia).
  replace (strings.len (String c0 rest) <? 19) with true
    by (symmetry; by apply Z.ltb_lt).
  unfold isNumeral in Hnum. unfold numeralValue. cbn [andb].
  unfold strings.len in Hshort. simpl in Hshort.
  destruct (Ascii.eqb_spec c0 "-") as [->|Hminus]; cbn [orb andb] in *.
  - apply andb_true_iff in Hnum as [Hne Hdigits].
    destruct rest as [|c1 rest]; [done|].
    replace (strings.len (String c1 rest) <? 1) with false
      by (symmetry; apply Z.ltb_ge; unfold strings.len; simpl; lia).
    destruct (Atoi_loop_run (String c1 rest) Hdigits) as [-> Hval];
      [simpl in *; lia|].
    rewrite wrap_int64_small
      by (change (2 ^ 63) with 9223372036854775808;
          change (10 ^ 18) with 1000000000000000000 in Hval; lia).
    split; [done | lia].
  - destruct (Ascii.eqb_spec c0 "+") as [->|Hplus]; cbn [orb andb] in *.
    + apply andb_true_iff in Hnum as [Hne Hdigits].
      destruct rest as [|c1 rest]; [done|].
      replace (strings.len (String c1 rest) <? 1) with false
        by (symmetry; apply Z.ltb_ge; unfold strings.len; simpl; lia).
      destruct (Atoi_loop_run (String c1 rest) Hdigits) as [-> Hval];
        [simpl in *; lia|].
      split; [done | lia].
    + apply andb_true_iff in Hnum as [_ Hdigits].
      destruct (Atoi_loop_run (String c0 rest) Hdigits) as [-> Hval];
        [simpl in *; lia|].
      split; [done | lia].
Qed.

End numeral_facts.

Lemma message_not_empty prefix param c : String c prefix ++ param <> "".
Proof. by rewrite append_cons. Qed.

(** X8. With a decimal numeral of fewer than nineteen bytes for
    parameter, sign allowed, [min] accepts exactly the values of at
    least that many bytes and [max] exactly the values of at most that
    many; a value that is refused gets the message that names the
    parameter. *)
Theorem Min_Max_numeral (value param : string) :
  isNumeral param = true ->
  strings.len param < 19 ->
  (Min value param = "" <-> numeralValue param <= strings.len value)
  /\ (Max value param = "" <-> strings.len value <= numeralValue param)
  /\ (Min value param <> "" -> Min value param = "min length is " ++ param)
  /\ (Max value param <> "" -> Max value param = "max length is " ++ param).
Proof.
  intros Hnum Hshort. destruct (Atoi_numeral param Hnum Hshort) as [Hatoi _].
  unfold Min, Max. rewrite Hatoi. simpl.
  destruct (Z.ltb_spec (strings.len value) (numeralValue param));
    destruct (Z.gtb_spec (strings.len value) (numeralValue param));
    repeat split; try done; try lia; intros Hmsg;
    by apply message_not_empty in Hmsg.
Qed.

Lemma Min_Max_numeral_witness :
  (Min "Al" "3" = "" <-> numeralValue "3" <= strings.len "Al")
  /\ (Max "Al" "3" = "" <-> strings.len "Al" <= numeralValue "3")
  /\ (Min "Al" "3" <> "" -> Min "Al" "3" = "min length is " ++ "3")
  /\ (Max "Al" "3" <> "" -> Max "Al" "3" = "max length is " ++ "3").
Proof. apply (Min_Max_numeral "Al" "3"); [reflexivity | by vm_compute]. Defined.





(** X10. [init] puts the four built-in validators under their names,
    whatever was registered there, leaves every other name as it was,
    and does nothing when run again. *)
Theorem init_registers_builtins (validators : Registry) :
  init validators !! "min" = Some Min
  /\ init validators !! "max" = Some Max
  /\ init validators !! "required" = Some Required
  /\ init validators !! "email" = Some Email
  /\ (forall name, name ∉ builtinNames -> init validators !! name = validators !! name)
  /\ init (init validators) = init validators.
Proof.
  assert (forall name,
            init validators !! name
            = if decide (name = "email") then Some Email
              else if decide (name = "required") then Some Required
              else if decide (name = "max") then Some Max
              else if decide (name = "min") then Some Min
              else validators !! name) as Hlookup.
  { intros name. unfold init, RegisterValidator.
    rewrite !lookup_insert. repeat case_decide; congruence. }
  repeat split; try (by rewrite Hlookup).
  - intros name Hname. rewrite Hlookup. unfold builtinNames in Hname.
    repeat (apply not_elem_of_cons in Hname as [? Hname]).
    by repeat case_decide.
  - apply map_eq. intros name.
    unfold init at 1. unfold RegisterValidator.
    rewrite !lookup_insert, Hlookup. by repeat case_decide.
Qed.

Lemma init_registers_builtins_witness :
  init (RegisterValidator "password" Required ∅) !! "password" = Some Required.
Proof.
  destruct (init_registers_builtins (RegisterValidator "password" Required ∅))
    as (_ & _ & _ & _ & Hother & _).
  rewrite Hother; [reflexivity|].
  intros Hin. repeat (apply elem_of_cons in Hin as [Hin|Hin]; [discriminate|]).
  by apply elem_of_nil in Hin.
Defined.

(** ** The pattern of [Email] *)

Section regexp_facts.

Import regexp.

Lemma append_empty_inv s t : s ++ t = "" -> s = "" /\ t = "".
Proof. destruct s; [by rewrite append_empty_l | by rewrite append_cons]. Qed.

Lemma append_assoc_string s t u : (s ++ t) ++ u = s ++ (t ++ u).
Proof.
  induction s as [|a s IH]; [done|]. rewrite !append_cons. by rewrite IH.
Qed.

Lemma nullable_Matches r : nullable r = true <-> Matches r "".
Proof.
  split.
  - induction r as [| |member|r1 IH1 r2 IH2|r1 IH1 r2 IH2|r IH]; simpl; try done.
    + intros _. constructor.
    + intros [H1 H2]%andb_true_iff.
      change "" with ("" ++ ""). constructor; auto.
    + intros [H1|H2]%orb_true_iff; [apply Matches_left | apply Matches_right]; auto.
    + intros _. constructor.
  - intros Hmatch. remember "" as t eqn:Hs.
    induction Hmatch as [|member c Hc|r1 r2 s1 s2 _ IH1 _ IH2|r1 r2 s _ IH
                        |r1 r2 s _ IH|r|r s1 s2 _ _ _ _]; simpl; try done.
    + apply append_empty_inv in Hs as [-> ->]. by rewrite IH1, IH2.
    + by rewrite IH.
    + rewrite IH by done. apply orb_true_r.
Qed.

(** A non-empty match of a repetition starts with a non-empty match of
    what is repeated. *)
Lemma Matches_star_cons r c s :
  Matches (Star r) (String c s) ->
  exists s1 s2, s = s1 ++ s2 /\ Matches r (String c s1) /\ Matches (Star r) s2.
Proof.
  intros Hmatch. remember (Star r) as r' eqn:Hr. remember (String c s) as t eqn:Ht.
  revert s Ht.
  induction Hmatch as [| | | | |r0|r0 s1 s2 H1 _ H2 IH2]; intros tail Ht; try done.
  injection Hr as ->. destruct s1 as [|a s1].
  - rewrite append_empty_l in Ht. by apply IH2.
  - rewrite append_cons in Ht. injection Ht as -> <-. by exists s1, s2.
Qed.

Lemma derive_Matches r : forall c s, Matches (derive c r) s <-> Matches r (String c s).
Proof.
  induction r as [| |member|r1 IH1 r2 IH2|r1 IH1 r2 IH2|r IH]; intros c s; simpl.
  - split; inversion 1.
  - split; inversion 1.
  - destruct (member c) eqn:Hc; split; inversion 1; subst.
    + by constructor.
    + constructor.
    + congruence.
  - assert (Matches (Concat (derive c r1) r2) s
            <-> exists s1 s2, s = s1 ++ s2 /\ Matches r1 (String c s1) /\ Matches r2 s2)
      as Hhead.
    { split.
      - inversion 1; subst. eexists _, _. split; [done|]. split; [by apply IH1 | done].
      - intros (s1 & s2 & -> & H1 & H2). constructor; [by apply IH1 | done]. }
    assert (Matches (Concat r1 r2) (String c s)
            <-> (exists s1 s2, s = s1 ++ s2 /\ Matches r1 (String c s1) /\ Matches r2 s2)
                \/ (Matches r1 "" /\ Matches r2 (String c s))) as Hwhole.
    { split.
      - inversion 1 as [| |? ? s1 s2 H1 H2 Heq| | | |]; subst.
        destruct s1 as [|a s1].
        + rewrite append_empty_l in *. subst. by right.
        + rewrite append_cons in *. simplify_eq. left. by exists s1, s2.
      - intros [(s1 & s2 & -> & H1 & H2)|[H1 H2]].
        + rewrite <- append_cons. by constructor.
        + rewrite <- (append_empty_l (String c s)). by constructor. }
    rewrite Hwhole. destruct (nullable r1) eqn:Hnull.
    + split.
      * inversion 1; subst; [left; by apply Hhead | right].
        split; [by apply nullable_Matches | by apply IH2].
      * intros [Hl|[_ Hr]]; [apply Matches_left; by apply Hhead|].
        apply Matches_right. by apply IH2.
    + rewrite Hhead. split; [by left|]. intros [Hl|[Hr _]]; [done|].
      apply nullable_Matches in Hr. congruence.
  - split.
    + inversion 1; subst; [apply Matches_left; by apply IH1
                          | apply Matches_right; by apply IH2].
    + inversion 1; subst; [apply Matches_left; by apply IH1
                          | apply Matches_right; by apply IH2].
  - split.
    + inversion 1; subst. rewrite <- append_cons.
      constructor; [by apply IH | done].
    + intros (s1 & s2 & -> & H1 & H2)%Matches_star_cons.
      constructor; [by apply IH | done].
Qed.

(** The derivative matcher accepts the strings the pattern matches. *)
Lemma MatchAnchored_Matches s : forall r, MatchAnchored r s = true <-> Matches r s.
Proof.
  induction s as [|c s IH]; intros r; simpl.
  - apply nullable_Matches.
  - rewrite IH. apply derive_Matches.
Qed.

Lemma Matches_class_inv member s :
  Matches (CharClass member) s <-> exists c, s = String c "" /\ member c = true.
Proof.
  split.
  - inversion 1; subst. by eexists.
  - intros (c & -> & Hc). by constructor.
Qed.

Lemma Matches_star_class member s :
  Matches (Star (CharClass member)) s <-> allIn member s = true.
Proof.
  split.
  - induction s as [|c s IH]; [done|].
    intros (s1 & s2 & -> & Hc & Hrest)%Matches_star_cons.
    apply Matches_class_inv in Hc as (c' & [= -> ->] & Hc).
    rewrite append_empty_l in *. simpl. rewrite Hc. by apply IH.
  - induction s as [|c s IH]; simpl; [constructor|].
    intros [Hc Hs]%andb_true_iff.
    change (String c s) with (String c "" ++ s).
    constructor; [by constructor | by apply IH].
Qed.

Lemma Matches_concat_inv r1 r2 s :
  Matches (Concat r1 r2) s
  <-> exists s1 s2, s = s1 ++ s2 /\ Matches r1 s1 /\ Matches r2 s2.
Proof.
  split.
  - inversion 1; subst. by eexists _, _.
  - intros (s1 & s2 & -> & H1 & H2). by constructor.
Qed.

Lemma Matches_plus_class member s :
  Matches (Plus (CharClass member)) s <-> s <> "" /\ allIn member s = true.
Proof.
  unfold Plus. rewrite Matches_concat_inv. split.
  - intros (s1 & s2 & -> & (c & -> & Hc)%Matches_class_inv & Hrest%Matches_star_class).
    rewrite append_cons, append_empty_l. simpl. by rewrite Hc, Hrest.
  - intros [Hne Hall]. destruct s as [|c s]; [done|]. simpl in Hall.
    apply andb_true_iff in Hall as [Hc Hs].
    exists (String c ""), s. split; [done|].
    split; [by apply Matches_class_inv; eexists | by apply Matches_star_class].
Qed.

Lemma Matches_at_least_2_class member s :
  Matches (AtLeast2 (CharClass member)) s
  <-> (2 <= String.length s)%nat /\ allIn member s = true.
Proof.
  unfold AtLeast2. rewrite Matches_concat_inv. split.
  - intros (s1 & s2 & -> & (c & -> & Hc)%Matches_class_inv & Hrest).
    apply Matches_plus_class in Hrest as [Hne Hall].
    rewrite append_cons, append_empty_l. simpl. rewrite Hc, Hall.
    destruct s2; [done|]. simpl. split; [lia | done].
  - intros [Hlen Hall]. destruct s as [|c [|c' s]]; simpl in Hlen; [lia | lia |].
    simpl in Hall. apply andb_true_iff in Hall as [Hc Hs].
    exists (String c ""), (String c' s). split; [done|].
    split; [by apply Matches_class_inv; eexists|].
    apply Matches_plus_class. split; [done|]. exact Hs.
Qed.

Lemma Matches_literal c s : Matches (Literal c) s <-> s = String c "".
Proof.
  unfold Literal. rewrite Matches_class_inv. split.
  - by intros (c' & -> & ->%Ascii.eqb_eq).
  - intros ->. exists c. by rewrite Ascii.eqb_refl.
Qed.

End regexp_facts.

(** X11. [Email] accepts exactly the strings [local@domain.tld] where
    [local] is a non-empty run of letters, digits and the bytes
    [._%+-], [domain] a non-empty run of letters, digits, dots and
    hyphens, and [tld] a run of two letters or more; every other string
    gets the message ["invalid email"], and the parameter plays no
    part. *)
Theorem Email_accepts_iff (value param : string) :
  (Email value param = ""
   <-> exists local domain tld,
         value = local ++ "@" ++ domain ++ "." ++ tld
         /\ local <> "" /\ allIn emailLocalClass local = true
         /\ domain <> "" /\ allIn emailDomainClass domain = true
         /\ (2 <= String.length tld)%nat /\ allIn regexp.alpha tld = true)
  /\ (Email value param <> "" -> Email value param = "invalid email").
Proof.
  unfold Email.
  assert (regexp.MatchAnchored emailRegex value = true
          <-> exists local domain tld,
                value = local ++ "@" ++ domain ++ "." ++ tld
                /\ local <> "" /\ allIn emailLocalClass local = true
                /\ domain <> "" /\ allIn emailDomainClass domain = true
                /\ (2 <= String.length tld)%nat /\ allIn regexp.alpha tld = true)
    as Hshape.
  { rewrite MatchAnchored_Matches. unfold emailRegex. split.
    - intros (local & s1 & -> & [Hl1 Hl2]%Matches_plus_class & H1)%Matches_concat_inv.
      apply Matches_concat_inv in H1 as (at_ & s2 & -> & ->%Matches_literal & H2).
      apply Matches_concat_inv in H2
        as (domain & s3 & -> & [Hd1 Hd2]%Matches_plus_class & H3).
      apply Matches_concat_inv in H3 as (dot & tld & -> & ->%Matches_literal & H4).
      apply Matches_at_least_2_class in H4 as [Ht1 Ht2].
      by exists local, domain, tld.
    - intros (local & domain & tld & -> & Hl1 & Hl2 & Hd1 & Hd2 & Ht1 & Ht2).
      apply Matches_concat_inv. exists local, ("@" ++ domain ++ "." ++ tld).
      split; [done|]. split; [by apply Matches_plus_class|].
      apply Matches_concat_inv. exists "@", (domain ++ "." ++ tld).
      split; [done|]. split; [by apply Matches_literal|].
      apply Matches_concat_inv. exists domain, ("." ++ tld).
      split; [done|]. split; [by apply Matches_plus_class|].
      apply Matches_concat_inv. exists ".", tld.
      split; [done|]. split; [by apply Matches_literal|].
      by apply Matches_at_least_2_class. }
  destruct (regexp.MatchAnchored emailRegex value); simpl.
  - split; [|done]. split; [intros _; by apply Hshape | done].
  - split; [|done]. split; [done|]. intros Hyes. by apply Hshape in Hyes.
Qed.

Lemma Email_accepts_iff_witness : Email "alexganbert@gmail.com" "" = "".
Proof.
  apply (Email_accepts_iff "alexganbert@gmail.com" "").
  exists "alexganbert", "gmail", "com". repeat split; try done. simpl. lia.
Defined.

(** Addresses [Email] accepts and refuses. *)
Example Email_cases :
  Email "alexganbert@gmail.com" "" = ""
  /\ Email "a.b+c@mail.example.org" "" = ""
  /\ Email "not-an-email" "" = "invalid email"
  /\ Email "" "" = "invalid email"
  /\ Email "a@b.c" "" = "invalid email"
  /\ Email "a b@c.de" "" = "invalid email"
  /\ Email "a@b@c.de" "" = "invalid email".
Proof. vm_compute. done. Qed.

(** ** The earlier engine *)

Section split_facts.

Import strings.

Lemma Split_no_sep s c : ContainsByte s c = false -> Split s c = [s].
Proof.
  induction s as [|a s IH]; simpl; [done|].
  intros [Ha Hs]%orb_false_iff. by rewrite Ha, (IH Hs).
Qed.

Lemma Split_at_first s c rest :
  ContainsByte s c = false -> Split (s ++ String c rest) c = s :: Split rest c.
Proof.
  induction s as [|a s IH]; intros Hs.
  - rewrite append_empty_l. simpl. by rewrite Ascii.eqb_refl.
  - rewrite append_cons. simpl in *. apply orb_false_iff in Hs as [Ha Hs].
    by rewrite Ha, (IH Hs).
Qed.

Lemma ContainsByte_app s t c :
  ContainsByte (s ++ t) c = ContainsByte s c || ContainsByte t c.
Proof.
  induction s as [|a s IH]; [done|]. rewrite append_cons. simpl.
  by rewrite IH, orb_assoc.
Qed.

Lemma countByte_app s t c : countByte (s ++ t) c = (countByte s c + countByte t c)%nat.
Proof.
  induction s as [|a s IH]; [done|]. rewrite append_cons. simpl. rewrite IH. lia.
Qed.

Lemma countByte_none s c : ContainsByte s c = false <-> countByte s c = O.
Proof.
  induction s as [|a s IH]; simpl; [done|].
  destruct (Ascii.eqb a c); simpl; [done | exact IH].
Qed.

Lemma TrimRight_keeps_out s c cut :
  ContainsByte s c = false -> ContainsByte (TrimRight s cut) c = false.
Proof.
  intros Hs. destruct (TrimRight_run s cut) as [k Hk].
  rewrite Hk, ContainsByte_app in Hs. by apply orb_false_iff in Hs as [? _].
Qed.

(** [TrimRight] does not reach beyond a byte that is not cut. *)
Lemma TrimRight_past s c t cut :
  c <> cut -> TrimRight (s ++ String c t) cut = s ++ String c (TrimRight t cut).
Proof.
  intros Hc. apply Ascii.eqb_neq in Hc. induction s as [|a s IH].
  - rewrite !append_empty_l. simpl. rewrite Hc. by destruct (TrimRight t cut).
  - rewrite !append_cons. simpl. rewrite IH.
    destruct s; [by rewrite append_empty_l | by rewrite append_cons].
Qed.

End split_facts.

(** X12. The rule parsing of the earlier engine and [parseRule] return
    the same name and parameter exactly for the segments with at most
    one opening parenthesis. *)
Theorem splitRule_parseRule (rule : string) :
  gform.splitRule rule = parseRule rule <-> (countByte rule "(" <= 1)%nat.
Proof.
  unfold gform.splitRule.
  destruct (strings.ContainsByte rule "(") eqn:Hparen.
  - destruct (ContainsByte_split _ _ Hparen) as (name & rest & -> & Hname).
    rewrite Split_at_first, parseRule_with_param by done.
    rewrite countByte_app. apply countByte_none in Hname as ->. simpl.
    destruct (strings.ContainsByte rest "(") eqn:Hrest.
    + destruct (ContainsByte_split _ _ Hrest) as (mid & more & -> & Hmid).
      rewrite Split_at_first by done. simpl.
      rewrite TrimRight_past by done. rewrite countByte_app. simpl. split; [|lia].
      intros [= Hsame].
      assert (strings.ContainsByte (strings.TrimRight mid ")") "(" = false) as Hout
        by by apply TrimRight_keeps_out.
      rewrite Hsame, ContainsByte_app in Hout. simpl in Hout.
      by rewrite orb_true_r in Hout.
    + rewrite Split_no_sep by done. simpl.
      apply countByte_none in Hrest as ->. split; [lia | done].
  - rewrite Split_no_sep, parseRule_bare by done. simpl.
    apply countByte_none in Hparen as ->. split; [lia | done].
Qed.

Lemma splitRule_parseRule_witness :
  gform.splitRule "max(20)" = parseRule "max(20)"
  /\ gform.splitRule "in(a(b))" <> parseRule "in(a(b))".
Proof.
  split.
  - apply (splitRule_parseRule "max(20)"). simpl. lia.
  - intros Hsame. apply (splitRule_parseRule "in(a(b))") in Hsame.
    simpl in Hsame. lia.
Defined.

(** What the two parsers make of a parameter with a parenthesis. *)
Example splitRule_nested :
  gform.splitRule "in(a(b))" = ("in", "a") /\ parseRule "in(a(b))" = ("in", "a(b").
Proof. done. Qed.

Lemma gform_validateField_withPkgPath otherString validators path st f :
  otherString (withPkgPath path f) = otherString f ->
  gform.validateField otherString validators st (withPkgPath path f)
  = gform.validateField otherString validators st f.
Proof. intros Hother. unfold gform.validateField. simpl. by rewrite Hother. Qed.

(** X13. The earlier engine panics on every value that is not itself a
    struct, nil and a pointer to a struct included, where it asks for
    the number of fields, before any validator is called; on a struct,
    what it does is the same whether the fields are exported or not. *)
Theorem gform_validateStruct_kinds (otherString : reflect.StructField -> string)
    (validators : Registry) :
  (forall s, (forall fields, s <> reflect.VStruct fields) ->
             exists reason, gform.validateStruct otherString validators s = Panics reason)
  /\ (forall path fields,
        (forall f, otherString (withPkgPath path f) = otherString f) ->
        gform.validateStruct otherString validators
          (reflect.VStruct (withPkgPath path <$> fields))
        = gform.validateStruct otherString validators (reflect.VStruct fields)).
Proof.
  split.
  - intros s Hnot. unfold gform.validateStruct.
    destruct s as [|k|elem|fields]; [by eexists | destruct k; by eexists | by eexists|].
    by destruct (Hnot fields).
  - intros path fields Hother. unfold gform.validateStruct. simpl.
    assert (forall st,
              fold_left (gform.validateField otherString validators)
                (withPkgPath path <$> fields) st
              = fold_left (gform.validateField otherString validators) fields st) as ->;
      [|done].
    induction fields as [|f fields IH]; intros st; simpl; [done|].
    by rewrite gform_validateField_withPkgPath, IH.
Qed.

Lemma gform_validateStruct_kinds_witness :
  (exists reason,
     gform.validateStruct (fun _ => "<int Value>") builtins
       (reflect.VPtr (reflect.VStruct (Form "Al")))
     = Panics reason)
  /\ gform.validateStruct (fun _ => "<int Value>") builtins
       (reflect.VStruct (withPkgPath "main" <$> Form "Al"))
     = gform.validateStruct (fun _ => "<int Value>") builtins (reflect.VStruct (Form "Al")).
Proof.
  destruct (gform_validateStruct_kinds (fun _ => "<int Value>") builtins)
    as [Hpanics Hsame].
  split; [apply Hpanics; discriminate | apply Hsame; reflexivity].
Defined.

Lemma splitRule_parseRule_helper rule :
  (countByte rule "(" <= 1)%nat -> gform.splitRule rule = parseRule rule.
Proof.
  intros Hcount. unfold gform.splitRule.
  destruct (strings.ContainsByte rule "(") eqn:Hparen.
  - destruct (ContainsByte_split _ _ Hparen) as (name & rest & -> & Hname).
    rewrite Split_at_first, parseRule_with_param by done.
    rewrite countByte_app in Hcount. simpl in Hcount.
    assert (strings.ContainsByte rest "(" = false) as Hrest
      by (apply countByte_none; lia).
    by rewrite Split_no_sep.
  - by rewrite Split_no_sep, parseRule_bare.
Qed.

Section same_for_both.

Context (otherString : reflect.StructField -> string) (validators : Registry).

Lemma gform_dispatch_same fieldName value st rule :
  (countByte rule "(" <= 1)%nat ->
  gform.dispatch validators fieldName value st rule
  = dispatch validators fieldName value st rule.
Proof.
  intros Hone%splitRule_parseRule_helper. unfold gform.dispatch, dispatch.
  by rewrite Hone.
Qed.

Lemma gform_dispatchAll_same fieldName value rules st :
  Forall (fun rule => (countByte rule "(" <= 1)%nat) rules ->
  fold_left (gform.dispatch validators fieldName value) rules st
  = dispatchAll validators fieldName value rules st.
Proof.
  unfold dispatchAll. intros Hrules. revert st.
  induction Hrules as [|rule rules Hrule _ IH]; intros st; simpl; [done|].
  by rewrite gform_dispatch_same, IH.
Qed.

Lemma gform_validateField_same st f :
  sameForBoth otherString f ->
  validateField validators st f
  = Returns (gform.validateField otherString validators st f).
Proof.
  intros (Htag & Hjson & Hheld & Hread & Hrules).
  unfold gform.validateField. rewrite Htag. fold (ruleSpec f).
  destruct (decide (ruleSpec f = "")) as [Hspec|Hspec].
  - rewrite validateField_no_rules by done. by rewrite Hspec.
  - destruct Hread as [?|Hexp]; [done|].
    rewrite validateField_exported by done.
    apply String.eqb_neq in Hspec as ->. simpl.
    rewrite gform_dispatchAll_same by done. rewrite Hheld.
    rewrite <- displayName_reportKey. unfold displayName.
    apply String.eqb_neq in Hjson as ->. by rewrite orb_false_r.
Qed.

Lemma gform_validateFields_same fields st :
  Forall (sameForBoth otherString) fields ->
  validateFields validators fields st
  = Returns (fold_left (gform.validateField otherString validators) fields st).
Proof.
  intros Hfields. revert st.
  induction Hfields as [|f fields Hf _ IH]; intros st; simpl; [done|].
  rewrite gform_validateField_same by done. simpl. apply IH.
Qed.

End same_for_both.

(** X14. On a struct whose fields carry their rule specification under
    both tag keys, hold what [String] and [%v] give the same text for
    (such as a string of a type without [String] or [Error] method),
    are exported when they have rules, have no json tag ["-"] and no
    rule with two opening parentheses, the earlier engine does what
    [ValidateStruct] does: the same validator calls, then the same
    report. *)
Theorem gform_validateStruct_ValidateStruct (otherString : reflect.StructField -> string)
    (validators : Registry) (fields : list reflect.StructField) :
  Forall (sameForBoth otherString) fields ->
  gform.validateStruct otherString validators (reflect.VStruct fields)
  = ValidateStruct validators (reflect.VStruct fields).
Proof.
  intros Hfields. unfold gform.validateStruct, ValidateStruct. simpl.
  by rewrite (gform_validateFields_same otherString).
Qed.

Lemma Form_sameForBoth : Forall (sameForBoth (fun _ => "<int Value>")) (Form "Al").
Proof.
  constructor; [|constructor].
  split; [reflexivity|]. split; [discriminate|]. split; [reflexivity|].
  split; [by right|].
  constructor; [simpl; lia|]. constructor; [simpl; lia|]. constructor.
Defined.

Lemma gform_validateStruct_ValidateStruct_witness :
  gform.validateStruct (fun _ => "<int Value>") builtins (reflect.VStruct (Form "Al"))
  = ValidateStruct builtins (reflect.VStruct (Form "Al")).
Proof.
  apply (gform_validateStruct_ValidateStruct (fun _ => "<int Value>") builtins (Form "Al")).
  exact Form_sameForBoth.
Defined.

(** What both return for that record. *)
Example Form_report :
  (fun o => (map_to_list <$> (Errors <$> report o), Message <$> report o))
    <$> ValidateStruct builtins (reflect.VStruct (Form "Al"))
  = Returns (Some [("name", ["min length is 3"])], Some "min length is 3").
Proof. vm_compute. reflexivity. Qed.

(** ** Rules on fields that hold numbers *)

(** The decimal rendering of a number below [10 ^ k] has at most [k]
    bytes. *)
Lemma pretty_N_go_length (k : nat) : forall x s,
  (x < 10 ^ N.of_nat k)%N ->
  (String.length (pretty_N_go x s) <= String.length s + k)%nat.
Proof.
  induction k as [|k IH]; intros x s Hx.
  - assert (x = 0%N) as -> by (simpl in Hx; lia). rewrite pretty_N_go_0. lia.
  - destruct (decide (x = 0%N)) as [->|Hpos]; [rewrite pretty_N_go_0; lia|].
    rewrite pretty_N_go_step by lia.
    etrans; [apply IH|simpl; lia].
    rewrite Nat2N.inj_succ, N.pow_succ_r' in Hx.
    apply N.Div0.div_lt_upper_bound. lia.
Qed.

Lemma pretty_Z_length (n : Z) (k : nat) :
  0 <= n < 10 ^ Z.of_nat k -> (1 <= k)%nat ->
  strings.len (pretty n) <= Z.of_nat k.
Proof.
  intros Hn Hk. unfold strings.len. apply inj_le.
  destruct n as [|p|p]; [simpl; lia| |lia].
  unfold pretty, pretty_Z, pretty, pretty_positive, pretty, pretty_N.
  rewrite decide_False by done.
  etrans; [apply (pretty_N_go_length k)|simpl; lia].
  assert (Z.of_N (N.pos p) < Z.of_N (10 ^ N.of_nat k)) as Hlt; [|lia].
  rewrite N2Z.inj_pow, nat_N_Z. simpl. lia.
Qed.

(** X15. On a field that [%v] renders as the decimal form of an
    integer, as it does the integers of the types without [String] or
    [Error] method, [min] and [max] measure that rendering and not the
    number: a number of at most [k] digits is refused by [min] for every
    bound above [k] and accepted by [max] for every bound from [k] on. *)
Theorem Min_Max_on_decimal_rendering (value : string) (n : Z) (k : nat) (param : string) :
  value = pretty n ->
  0 <= n < 10 ^ Z.of_nat k ->
  (1 <= k)%nat ->
  isNumeral param = true ->
  strings.len param < 19 ->
  (Z.of_nat k < numeralValue param -> Min value param = "min length is " ++ param)
  /\ (Z.of_nat k <= numeralValue param -> Max value param = "").
Proof.
  intros -> Hn Hk Hnum Hshort.
  destruct (Atoi_numeral param Hnum Hshort) as [Hatoi _].
  pose proof (pretty_Z_length n k Hn Hk) as Hlen.
  unfold Min, Max. rewrite Hatoi. simpl. split; intros Hbound.
  - by destruct (Z.ltb_spec (strings.len (pretty n)) (numeralValue param)); [|lia].
  - by destruct (Z.gtb_spec (strings.len (pretty n)) (numeralValue param)); [lia|].
Qed.

Lemma Min_Max_on_decimal_rendering_witness :
  Min (Sprintf_v (reflect.HInt 25)) "18" = "min length is " ++ "18"
  /\ Max (Sprintf_v (reflect.HInt 25)) "2" = "".
Proof.
  split.
  - apply (Min_Max_on_decimal_rendering (Sprintf_v (reflect.HInt 25)) 25 2 "18");
      [reflexivity | by vm_compute | lia | reflexivity | by vm_compute | by vm_compute].
  - apply (Min_Max_on_decimal_rendering (Sprintf_v (reflect.HInt 25)) 25 2 "2");
      [reflexivity | by vm_compute | lia | reflexivity | by vm_compute | by vm_compute].
Defined.

(** ** Rule specifications put together *)

Lemma Split_app s t c :
  strings.Split (s ++ String c t) c = (strings.Split s c ++ strings.Split t c)%list.
Proof.
  induction s as [|a s IH].
  - rewrite append_empty_l. simpl. by rewrite Ascii.eqb_refl.
  - rewrite append_cons. simpl. rewrite IH.
    destruct (Ascii.eqb a c); [done|].
    pose proof (Split_nonempty s c). by destruct (strings.Split s c).
Qed.

(** X16. The rules of two specifications joined by a bar are the rules
    of the first followed by the rules of the second, and the rule loop
    on the joined specification is the loop on the first followed by
    the loop on the second. *)
Theorem dispatchAll_joined (validators : Registry) (fieldName value : string)
    (spec1 spec2 : string) (st : LoopState) :
  parseRules (spec1 ++ "|" ++ spec2) = (parseRules spec1 ++ parseRules spec2)%list
  /\ dispatchAll validators fieldName value (strings.Split (spec1 ++ "|" ++ spec2) "|") st
     = dispatchAll validators fieldName value (strings.Split spec2 "|")
         (dispatchAll validators fieldName value (strings.Split spec1 "|") st).
Proof.
  change (spec1 ++ "|" ++ spec2) with (spec1 ++ String "|" spec2).
  unfold parseRules, dispatchAll. rewrite Split_app. split.
  - apply fmap_app.
  - apply fold_left_app.
Qed.
